(** * P2P fiat trading: escrow and trade engine

    A shallow embedding of [src/lib/p2p-fiat] (the module documented as
    "P2P fiat-to-crypto trading with internal ledger escrow") and the
    properties of its trade state machine.

    Conventions of the embedding:
    - amounts, prices and counters ([number]) are integers in the
      token's smallest unit; timestamps are milliseconds since the epoch;
    - a database table is the list of its rows and a query is a filter over
      it, [.single()] answers only when exactly one row is selected;
    - a JS object used as a dictionary ([Record<string, _>]) is a [gmap];
    - an [async] function is a computation over the database that either
      resolves with a value or rejects with an error, and keeps the writes
      it made before rejecting;
    - an update whose [error] the caller reads is written or fails, and
      its answer is an argument of the function that makes it; the updates
      whose answer the caller discards are written;
    - [toast] and [console] calls have no effect on the state and are left
      out. *)

From Stdlib Require Import ZArith Lia.
From stdpp Require Import base decidable option list sorting strings pretty gmap fin_maps.

Local Open Scope Z_scope.

(* ================================================================== *)
(** * Types *)
(* ================================================================== *)

Inductive FiatCurrency :=
  TRY | IQD | IRR | EUR | USD | GBP | SEK | CHF | NOK | DKK | AUD | CAD.

Inductive CryptoToken := HEZ | PEZ.

(** ['open' | 'paused' | 'locked' | 'completed' | 'cancelled'] *)
Inductive OfferStatus :=
  OfferOpen | OfferPaused | OfferLocked | OfferCompleted | OfferCancelled.

(** ['pending' | 'payment_sent' | 'completed' | 'cancelled' | 'disputed' | 'refunded'] *)
Inductive TradeStatus :=
  TradePending | TradePaymentSent | TradeCompleted | TradeCancelled
| TradeDisputed | TradeRefunded.

Inductive TrustLevel := TrustNew | TrustBasic | TrustIntermediate | TrustAdvanced | TrustVerified.

#[global] Instance FiatCurrency_eq_dec : EqDecision FiatCurrency.
Proof. solve_decision. Defined.
#[global] Instance CryptoToken_eq_dec : EqDecision CryptoToken.
Proof. solve_decision. Defined.
#[global] Instance OfferStatus_eq_dec : EqDecision OfferStatus.
Proof. solve_decision. Defined.
#[global] Instance TradeStatus_eq_dec : EqDecision TradeStatus.
Proof. solve_decision. Defined.

#[global] Instance CryptoToken_countable : Countable CryptoToken.
Proof.
  refine (inj_countable' (λ t, match t with HEZ => false | PEZ => true end)
                         (λ b : bool, if b then PEZ else HEZ) _).
  by intros [].
Defined.

Definition Timestamp := Z.

Record ValidationRule := {
  pattern : option string;
  minLength : option Z;
  maxLength : option Z;
  required : option bool;
}.

Module Offer.
Record t := mk {
  id : string;
  seller_id : string;
  seller_wallet : string;
  token : CryptoToken;
  amount_crypto : Z;
  fiat_currency : FiatCurrency;
  fiat_amount : Z;
  price_per_unit : Z;
  payment_method_id : string;
  payment_details_encrypted : string;
  min_order_amount : option Z;
  max_order_amount : option Z;
  time_limit_minutes : Z;
  auto_reply_message : option string;
  min_buyer_completed_trades : Z;
  min_buyer_reputation : Z;
  status : OfferStatus;
  remaining_amount : Z;
  created_at : Timestamp;
  expires_at : Timestamp;
}.

(** The row after [.update({ remaining_amount: r, status: s })]. *)
Definition update_remaining_status (r : Z) (s : OfferStatus) (o : t) : t :=
  mk (id o) (seller_id o) (seller_wallet o) (token o) (amount_crypto o)
     (fiat_currency o) (fiat_amount o) (price_per_unit o) (payment_method_id o)
     (payment_details_encrypted o) (min_order_amount o) (max_order_amount o)
     (time_limit_minutes o) (auto_reply_message o)
     (min_buyer_completed_trades o) (min_buyer_reputation o) s r
     (created_at o) (expires_at o).
End Offer.

Abbreviation P2PFiatOffer := Offer.t.

Module Trade.
(** A row of [p2p_fiat_trades]: the fields of the [P2PFiatTrade] interface,
    and the two columns [cancelTrade] writes. *)
Record t := mk {
  id : string;
  offer_id : string;
  seller_id : string;
  buyer_id : string;
  buyer_wallet : string;
  crypto_amount : Z;
  fiat_amount : Z;
  price_per_unit : Z;
  escrow_locked_amount : Z;
  buyer_marked_paid_at : option Timestamp;
  buyer_payment_proof_url : option string;
  seller_confirmed_at : option Timestamp;
  status : TradeStatus;
  payment_deadline : Timestamp;
  confirmation_deadline : option Timestamp;
  created_at : Timestamp;
  completed_at : option Timestamp;
  cancelled_by : option string;
  cancel_reason : option string;
}.

(** A key whose value is [undefined] is dropped when the update is
    serialised, so the column keeps its value. *)
Definition or_keep {A} (new : option A) (old : option A) : option A :=
  match new with Some v => Some v | None => old end.

(** The row after the update of [markPaymentSent]. *)
Definition mark_paid (paid_at : Timestamp) (proof : option string)
    (deadline : Timestamp) (r : t) : t :=
  mk (id r) (offer_id r) (seller_id r) (buyer_id r) (buyer_wallet r)
     (crypto_amount r) (fiat_amount r) (price_per_unit r)
     (escrow_locked_amount r) (Some paid_at)
     (or_keep proof (buyer_payment_proof_url r)) (seller_confirmed_at r)
     TradePaymentSent (payment_deadline r) (Some deadline) (created_at r)
     (completed_at r) (cancelled_by r) (cancel_reason r).

(** The row after the update of [confirmPaymentReceived]. *)
Definition complete (confirmed_at completed : Timestamp) (r : t) : t :=
  mk (id r) (offer_id r) (seller_id r) (buyer_id r) (buyer_wallet r)
     (crypto_amount r) (fiat_amount r) (price_per_unit r)
     (escrow_locked_amount r) (buyer_marked_paid_at r)
     (buyer_payment_proof_url r) (Some confirmed_at)
     TradeCompleted (payment_deadline r) (confirmation_deadline r)
     (created_at r) (Some completed) (cancelled_by r) (cancel_reason r).

(** The row after the update of [cancelTrade]. *)
Definition cancel (by_user : string) (reason : option string) (r : t) : t :=
  mk (id r) (offer_id r) (seller_id r) (buyer_id r) (buyer_wallet r)
     (crypto_amount r) (fiat_amount r) (price_per_unit r)
     (escrow_locked_amount r) (buyer_marked_paid_at r)
     (buyer_payment_proof_url r) (seller_confirmed_at r)
     TradeCancelled (payment_deadline r) (confirmation_deadline r)
     (created_at r) (completed_at r) (Some by_user)
     (or_keep reason (cancel_reason r)).
End Trade.

Abbreviation P2PFiatTrade := Trade.t.

Record P2PReputation := {
  user_id : string;
  total_trades : Z;
  completed_trades : Z;
  cancelled_trades : Z;
  disputed_trades : Z;
  reputation_score : Z;
  trust_level : TrustLevel;
  verified_merchant : bool;
  avg_payment_time_minutes : option Z;
}.

(** Modelled from the spec: the ledger table is not part of the client
    sources, which reach it only through database procedures. A balance
    row is "{available, locked, totalDeposited, totalWithdrawn}" and the
    table is "keyed by (userId, token)". *)
Record Balance := {
  available : Z;
  locked : Z;
  totalDeposited : Z;
  totalWithdrawn : Z;
}.

Record Database := {
  p2p_fiat_offers : list P2PFiatOffer;
  p2p_fiat_trades : list P2PFiatTrade;
  p2p_reputation : list P2PReputation;
  balances : gmap (string * CryptoToken) Balance;
}.

Definition with_offers (f : list P2PFiatOffer → list P2PFiatOffer) (db : Database) : Database :=
  {| p2p_fiat_offers := f (p2p_fiat_offers db);
     p2p_fiat_trades := p2p_fiat_trades db;
     p2p_reputation := p2p_reputation db;
     balances := balances db |}.

Definition with_trades (f : list P2PFiatTrade → list P2PFiatTrade) (db : Database) : Database :=
  {| p2p_fiat_offers := p2p_fiat_offers db;
     p2p_fiat_trades := f (p2p_fiat_trades db);
     p2p_reputation := p2p_reputation db;
     balances := balances db |}.

Definition with_balances
    (f : gmap (string * CryptoToken) Balance → gmap (string * CryptoToken) Balance)
    (db : Database) : Database :=
  {| p2p_fiat_offers := p2p_fiat_offers db;
     p2p_fiat_trades := p2p_fiat_trades db;
     p2p_reputation := p2p_reputation db;
     balances := f (balances db) |}.

(* ================================================================== *)
(** * Queries *)
(* ================================================================== *)

(** [.eq('id', k)] on each table. *)
Definition offer_by_id (k : string) (rows : list P2PFiatOffer) : list P2PFiatOffer :=
  filter (λ o, Offer.id o = k) rows.
Definition trade_by_id (k : string) (rows : list P2PFiatTrade) : list P2PFiatTrade :=
  filter (λ r, Trade.id r = k) rows.
Definition reputation_by_user (k : string) (rows : list P2PReputation) : list P2PReputation :=
  filter (λ r, user_id r = k) rows.

(** [.single()]: the row when exactly one is selected, [null] otherwise. *)
Definition single {A} (rows : list A) : option A :=
  match rows with
  | [r] => Some r
  | _ => None
  end.

(** [.update(patch).eq(column, k)]: every selected row is patched. *)
Definition update_where {A} (P : A → Prop) `{∀ x, Decision (P x)}
    (patch : A → A) (rows : list A) : list A :=
  (λ r, if decide (P r) then patch r else r) <$> rows.

(* ================================================================== *)
(** * Asynchronous computations over the database *)
(* ================================================================== *)

Inductive Error :=
| JsError (message : string)         (* [new Error(message)] *)
| PostgrestError (message : string)  (* the error object of a failed call *)
| TypeError.                         (* a property read on [null] *)

Inductive Result (A : Type) :=
| Ok (a : A)
| Throw (e : Error).
Arguments Ok {A} a.
Arguments Throw {A} e.

Definition Async (A : Type) : Type := Database → Result A * Database.

Definition resolve {A} (a : A) : Async A := λ db, (Ok a, db).
Definition throw {A} (e : Error) : Async A := λ db, (Throw e, db).
Definition await {A B} (m : Async A) (k : A → Async B) : Async B :=
  λ db, match m db with
        | (Ok a, db') => k a db'
        | (Throw e, db') => (Throw e, db')
        end.
Definition select {A} (q : Database → A) : Async A := λ db, (Ok (q db), db).
Definition execute (w : Database → Database) : Async unit := λ db, (Ok tt, w db).

Notation "'let*' x ':=' m 'in' k" := (await m (λ x, k))
  (at level 10, x name, m at level 100, k at level 200).
Notation "'do*' m 'in' k" := (await m (λ _, k))
  (at level 10, m at level 100, k at level 200).

(** JS truthiness of the values the module tests. *)
Definition truthy_string (s : string) : bool := negb (bool_decide (s = "")).
Definition truthy_number (n : Z) : bool := negb (n =? 0).

(** [a || b] for an optional number [a]. *)
Definition number_or (a : option Z) (b : Z) : Z :=
  match a with
  | Some n => if truthy_number n then n else b
  | None => b
  end.

(** [a || b] for an optional string [a]. *)
Definition string_or (a : option string) (b : string) : string :=
  match a with
  | Some s => if truthy_string s then s else b
  | None => b
  end.

(* ================================================================== *)
(** * Validation *)
(* ================================================================== *)

Section Validation.

(** [new RegExp(pattern).test(value)]; [None] when the pattern is not a
    regular expression and the constructor raises. The regular-expression
    engine belongs to the runtime and is a parameter here. *)
Variable RegExp_test : string → string → option bool.

Definition string_length (s : string) : Z := Z.of_nat (String.length s).

(** One turn of the loop of [validatePaymentDetails]: the message left in
    [errors[field]], if any. The later assignments overwrite the earlier
    ones. [None] is the exception of the [RegExp] constructor. *)
Definition field_error (value : string) (rules : ValidationRule)
    : option (option string) :=
  if bool_decide (required rules = Some true) && negb (truthy_string value)
  then Some (Some "This field is required")
  else
    e_pattern ←
      match pattern rules with
      | Some p =>
          if truthy_string p && truthy_string value
          then ok ← RegExp_test p value;
               Some (if ok : bool then None else Some "Invalid format")
          else Some None
      | None => Some None
      end;
    let e_min :=
      match minLength rules with
      | Some n =>
          if truthy_number n && (string_length value <? n)
          then Some ("Minimum " +:+ pretty n +:+ " characters")
          else e_pattern
      | None => e_pattern
      end in
    let e_max :=
      match maxLength rules with
      | Some n =>
          if truthy_number n && (n <? string_length value)
          then Some ("Maximum " +:+ pretty n +:+ " characters")
          else e_min
      | None => e_min
      end in
    Some e_max.

(** [paymentDetails[field] || ''] *)
Definition field_value (paymentDetails : gmap string string) (field : string) : string :=
  string_or (paymentDetails !! field) "".

Definition validate_entry (paymentDetails : gmap string string)
    (field : string) (rules : ValidationRule)
    (errors : option (gmap string string)) : option (gmap string string) :=
  errs ← errors;
  e ← field_error (field_value paymentDetails field) rules;
  Some (match e with
        | Some msg => <[field := msg]> errs
        | None => errs
        end).

Record ValidationResult := {
  valid : bool;
  errors : gmap string string;
}.

Definition validatePaymentDetails (paymentDetails : gmap string string)
    (validationRules : gmap string ValidationRule) : option ValidationResult :=
  errs ← map_fold (validate_entry paymentDetails) (Some ∅) validationRules;
  Some {| valid := bool_decide (size errs = 0%nat); errors := errs |}.

End Validation.

(* ================================================================== *)
(** * Offers *)
(* ================================================================== *)

(** [.order('price_per_unit')]: ascending, as the default of the client
    library is. *)
Definition price_le (a b : P2PFiatOffer) : Prop :=
  Offer.price_per_unit a ≤ Offer.price_per_unit b.

#[global] Instance price_le_dec a b : Decision (price_le a b).
Proof. unfold price_le. apply _. Defined.

Definition order_by_price (rows : list P2PFiatOffer) : list P2PFiatOffer :=
  merge_sort price_le rows.

(** The conditions of a query are conjoined. *)
Definition satisfies (conditions : list (P2PFiatOffer → bool)) (o : P2PFiatOffer) : bool :=
  forallb (λ c, c o) conditions.

(** The table always answers here; when the request fails, the source
    answers the empty list. *)
Definition getActiveOffers (now : Timestamp) (currency : option FiatCurrency)
    (token : option CryptoToken) (db : Database) : list P2PFiatOffer :=
  let query :=
    [ (λ o, bool_decide (Offer.status o = OfferOpen));
      (λ o, 0 <? Offer.remaining_amount o);
      (λ o, now <? Offer.expires_at o) ] in
  let query :=
    match currency with
    | Some c => query ++ [λ o, bool_decide (Offer.fiat_currency o = c)]
    | None => query
    end in
  let query :=
    match token with
    | Some t => query ++ [λ o, bool_decide (Offer.token o = t)]
    | None => query
    end in
  order_by_price (filter (λ o, satisfies query o) (p2p_fiat_offers db)).

(** What a database procedure answers: [{ data, error }] with [data] the
    JSON object [{ success, error, trade_id }] (an answer with neither
    [data] nor [error] is not considered). *)
Record RpcResponse := {
  success : bool;
  error : option string;
  trade_id : option string;
}.

Inductive RpcResult :=
| RpcError (message : string)
| RpcData (response : RpcResponse).

(** A database procedure runs on the database and answers; [supabase.rpc]
    resolves with its answer. *)
Definition Procedure : Type := Database → RpcResult * Database.

Definition rpc (p : Procedure) : Async RpcResult :=
  λ db, let (r, db') := p db in (Ok r, db').

(** [if (error) throw error; if (!response.success) throw new Error(response.error || fallback)] *)
Definition check_response (fallback : string) (r : RpcResult) : Async RpcResponse :=
  match r with
  | RpcError message => throw (PostgrestError message)
  | RpcData response =>
      if negb (success response)
      then throw (JsError (string_or (error response) fallback))
      else resolve response
  end.

Section Client.

(** The two database procedures the client calls. *)
Variable accept_p2p_offer :
  ∀ (p_offer_id p_buyer_id p_buyer_wallet : string) (p_amount : Z), Procedure.
Variable release_escrow_internal :
  ∀ (p_from_user_id p_to_user_id : string) (p_token : CryptoToken) (p_amount : Z)
    (p_reference_type p_reference_id : string), Procedure.

(** The reputation requirements of [acceptFiatOffer]. *)
Definition check_reputation (user : string) (offer : P2PFiatOffer) : Async unit :=
  if (0 <? Offer.min_buyer_completed_trades offer) || (0 <? Offer.min_buyer_reputation offer)
  then
    let* reputation := select (λ db, single (reputation_by_user user (p2p_reputation db))) in
    match reputation with
    | None => throw (JsError "Seller requires experienced buyers")
    | Some reputation =>
        if completed_trades reputation <? Offer.min_buyer_completed_trades offer
        then throw (JsError ("Minimum " +:+ pretty (Offer.min_buyer_completed_trades offer)
                               +:+ " completed trades required"))
        else if reputation_score reputation <? Offer.min_buyer_reputation offer
        then throw (JsError ("Minimum reputation score "
                               +:+ pretty (Offer.min_buyer_reputation offer) +:+ " required"))
        else resolve tt
    end
  else resolve tt.

(** [user] is the session user of [supabase.auth.getUser()]. *)
Definition acceptFiatOffer (user : option string) (offerId buyerWallet : string)
    (amount : option Z) : Async (option string) :=
  match user with
  | None => throw (JsError "Not authenticated")
  | Some user =>
      let* offer := select (λ db, single (offer_by_id offerId (p2p_fiat_offers db))) in
      match offer with
      | None => throw (JsError "Offer not found")
      | Some offer =>
          let tradeAmount := number_or amount (Offer.remaining_amount offer) in
          do* check_reputation user offer in
          let* result := rpc (accept_p2p_offer offerId user buyerWallet tradeAmount) in
          let* response := check_response "Failed to accept offer" result in
          resolve (trade_id response)
      end
  end.

(* ================================================================== *)
(** * Trades *)
(* ================================================================== *)

(** [60 * 60 * 1000] *)
Definition confirmation_window : Z := 60 * 60 * 1000.

(** What the table answers to an [update] whose [error] the caller reads:
    the rows are written, or the request fails with a message and nothing
    is written. *)
Inductive Answer :=
| Written
| Declined (message : string).

(** [const { error } = await supabase.from(...).update(...).eq(...)] *)
Definition update (answer : Answer) (w : Database → Database) : Async (option string) :=
  λ db, match answer with
        | Written => (Ok None, w db)
        | Declined message => (Ok (Some message), db)
        end.

(** The clock is read once: the reads of one call fall in the same
    millisecond [now]. [answer] is the answer of the table to the update
    of this call. *)
Definition markPaymentSent (answer : Answer) (now : Timestamp) (tradeId : string)
    (paymentProofUrl : option string) : Async unit :=
  let confirmationDeadline := now + confirmation_window in
  let* error := update answer (with_trades
    (update_where (λ r, Trade.id r = tradeId)
       (Trade.mark_paid now paymentProofUrl confirmationDeadline))) in
  match error with
  | Some message => throw (PostgrestError message)
  | None => resolve tt
  end.

Definition confirmPaymentReceived (now : Timestamp) (user : option string)
    (tradeId : string) : Async unit :=
  match user with
  | None => throw (JsError "Not authenticated")
  | Some sellerId =>
      (* [.select('*, p2p_fiat_offers(token)')]: the row with its offer embedded *)
      let* trade := select (λ db,
        r ← single (trade_by_id tradeId (p2p_fiat_trades db));
        Some (r, single (offer_by_id (Trade.offer_id r) (p2p_fiat_offers db)))) in
      match trade with
      | None => throw (JsError "Trade not found")
      | Some (trade, embedded) =>
          if negb (bool_decide (Trade.seller_id trade = sellerId))
          then throw (JsError "Only seller can confirm")
          else if negb (bool_decide (Trade.status trade = TradePaymentSent))
          then throw (JsError "Payment not marked as sent")
          else
            match embedded with
            | None => throw TypeError
            | Some offer =>
                let* result := rpc
                  (release_escrow_internal (Trade.seller_id trade) (Trade.buyer_id trade)
                     (Offer.token offer) (Trade.crypto_amount trade) "trade" tradeId) in
                do* check_response "Failed to release" result in
                execute (with_trades
                  (update_where (λ r, Trade.id r = tradeId) (Trade.complete now now)))
            end
      end
  end.

Definition cancelTrade (user : option string) (tradeId : string)
    (reason : option string) : Async unit :=
  match user with
  | None => throw (JsError "Not authenticated")
  | Some user =>
      let* trade := select (λ db, single (trade_by_id tradeId (p2p_fiat_trades db))) in
      match trade with
      | None => throw (JsError "Trade not found")
      | Some trade =>
          if negb (bool_decide (Trade.status trade = TradePending))
          then throw (JsError "Cannot cancel at this stage")
          else
            do* execute (with_trades
                  (update_where (λ r, Trade.id r = tradeId) (Trade.cancel user reason))) in
            (* Restore offer amount *)
            let* offer := select (λ db,
              single (offer_by_id (Trade.offer_id trade) (p2p_fiat_offers db))) in
            match offer with
            | Some offer =>
                execute (with_offers
                  (update_where (λ o, Offer.id o = Trade.offer_id trade)
                     (Offer.update_remaining_status
                        (Offer.remaining_amount offer + Trade.crypto_amount trade)
                        OfferOpen)))
            | None => resolve tt
            end
      end
  end.

End Client.

(* ================================================================== *)
(** * The database procedures *)
(* ================================================================== *)

Module Ledger.

Definition zero : Balance :=
  {| available := 0; locked := 0; totalDeposited := 0; totalWithdrawn := 0 |}.

(** Modelled from the spec: the balance of a user who has no row for the
    token is taken as empty. *)
Definition balance_of (ledger : gmap (string * CryptoToken) Balance)
    (user : string) (token : CryptoToken) : Balance :=
  default zero (ledger !! (user, token)).

Definition set_available_locked (a l : Z) (b : Balance) : Balance :=
  {| available := a; locked := l;
     totalDeposited := totalDeposited b; totalWithdrawn := totalWithdrawn b |}.

(** Modelled from the spec: "lock(userId, token, amount) → ok |
    InsufficientBalance — moves amount from available to locked; fails
    atomically if available < amount". *)
Definition lock (user : string) (token : CryptoToken) (amount : Z)
    (ledger : gmap (string * CryptoToken) Balance)
    : option (gmap (string * CryptoToken) Balance) :=
  let b := balance_of ledger user token in
  if available b <? amount then None
  else Some (<[(user, token) :=
               set_available_locked (available b - amount) (locked b + amount) b]> ledger).

(** Modelled from the spec: "unlock(userId, token, amount) — reverses a
    lock". *)
Definition unlock (user : string) (token : CryptoToken) (amount : Z)
    (ledger : gmap (string * CryptoToken) Balance)
    : gmap (string * CryptoToken) Balance :=
  let b := balance_of ledger user token in
  <[(user, token) :=
     set_available_locked (available b + amount) (locked b - amount) b]> ledger.

(** Modelled from the spec: "releaseTransfer(fromUserId, toUserId, token,
    amount) — atomically: decrement from.locked by amount, increment
    to.available by amount. Fails with LockMismatch if from.locked <
    amount". *)
Definition releaseTransfer (from to : string) (token : CryptoToken) (amount : Z)
    (ledger : gmap (string * CryptoToken) Balance)
    : option (gmap (string * CryptoToken) Balance) :=
  let bf := balance_of ledger from token in
  if locked bf <? amount then None
  else
    let ledger1 :=
      <[(from, token) := set_available_locked (available bf) (locked bf - amount) bf]> ledger in
    let bt := balance_of ledger1 to token in
    Some (<[(to, token) :=
             set_available_locked (available bt + amount) (locked bt) bt]> ledger1).

End Ledger.

Module OfferBook.

Inductive ReserveError :=
  OfferNotOpen | AmountExceedsRemaining | BelowMinOrder | AboveMaxOrder.

Definition error_name (e : ReserveError) : string :=
  match e with
  | OfferNotOpen => "OfferNotOpen"
  | AmountExceedsRemaining => "AmountExceedsRemaining"
  | BelowMinOrder => "BelowMinOrder"
  | AboveMaxOrder => "AboveMaxOrder"
  end.

(** The guards of [tryReserve] on the row read, in the order the spec
    lists its errors. *)
Definition reserve_guard (amount : Z) (o : P2PFiatOffer) : option ReserveError :=
  if negb (bool_decide (Offer.status o = OfferOpen)) then Some OfferNotOpen
  else if Offer.remaining_amount o <? amount then Some AmountExceedsRemaining
  else if match Offer.min_order_amount o with Some m => amount <? m | None => false end
  then Some BelowMinOrder
  else if match Offer.max_order_amount o with Some m => m <? amount | None => false end
  then Some AboveMaxOrder
  else None.

Definition reserved (amount : Z) (o : P2PFiatOffer) : P2PFiatOffer :=
  let r := Offer.remaining_amount o - amount in
  Offer.update_remaining_status r (if r =? 0 then OfferLocked else Offer.status o) o.

(** Modelled from the spec: "tryReserve(offerId, amount) → {offer snapshot}
    | OfferNotOpen | AmountExceedsRemaining | BelowMinOrder | AboveMaxOrder —
    succeeds only if offer.status==open, amount ≤ remainingAmount, and
    amount respects the offer's min/max order bounds; on success atomically
    decrements remainingAmount and, if it reaches zero, flips status to
    locked". An id that selects no offer is answered as [OfferNotOpen]. *)
Definition tryReserve (offerId : string) (amount : Z) (offers : list P2PFiatOffer)
    : ReserveError + (P2PFiatOffer * list P2PFiatOffer) :=
  match single (offer_by_id offerId offers) with
  | None => inl OfferNotOpen
  | Some o =>
      match reserve_guard amount o with
      | Some e => inl e
      | None =>
          inr (reserved amount o,
               update_where (λ r, Offer.id r = offerId) (reserved amount) offers)
      end
  end.

Definition restored (amount : Z) (o : P2PFiatOffer) : P2PFiatOffer :=
  let r := Offer.remaining_amount o + amount in
  Offer.update_remaining_status r
    (match Offer.status o with
     | OfferLocked | OfferCompleted => if 0 <? r then OfferOpen else Offer.status o
     | s => s
     end) o.

(** Modelled from the spec: "restore(offerId, amount) — compensating
    increment on trade cancellation/refund; if the offer had flipped to
    locked or completed and capacity reopens, status reverts to open
    (unless separately cancelled by the maker, which is terminal and not
    reversed by restore)". *)
Definition restore (offerId : string) (amount : Z) (offers : list P2PFiatOffer)
    : list P2PFiatOffer :=
  update_where (λ r, Offer.id r = offerId) (restored amount) offers.

End OfferBook.

Module Server.

Definition failure (name : string) : RpcResult :=
  RpcData {| success := false; error := Some name; trade_id := None |}.

(** Modelled from the spec: the procedure [release_escrow_internal] is the
    ledger's [releaseTransfer]; the reference arguments only label the
    movement. *)
Definition release_escrow_internal (p_from_user_id p_to_user_id : string)
    (p_token : CryptoToken) (p_amount : Z) (p_reference_type p_reference_id : string)
    : Procedure :=
  λ db,
    match Ledger.releaseTransfer p_from_user_id p_to_user_id p_token p_amount (balances db) with
    | None => (failure "LockMismatch", db)
    | Some ledger' =>
        (RpcData {| success := true; error := None; trade_id := None |},
         with_balances (λ _, ledger') db)
    end.

(** Modelled from the spec: the identifier of a new trade; the spec only
    asks for "the new trade id". *)
Definition new_trade_id (trades : list P2PFiatTrade) : string :=
  "trade-" +:+ pretty (Z.of_nat (length trades)).

(** Modelled from the spec: "Create Trade row in pending with deadlines
    computed from the offer's time limit", with fiatAmount = cryptoAmount ×
    pricePerUnit and escrowLockedAmount = cryptoAmount. *)
Definition new_trade (now : Timestamp) (tid : string) (o : P2PFiatOffer)
    (buyer wallet : string) (amount : Z) : P2PFiatTrade :=
  Trade.mk tid (Offer.id o) (Offer.seller_id o) buyer wallet amount
    (amount * Offer.price_per_unit o) (Offer.price_per_unit o) amount
    None None None TradePending
    (now + Offer.time_limit_minutes o * 60 * 1000) None now None None None.

(** Modelled from the spec: the procedure [accept_p2p_offer] is steps 2 to
    5 of "acceptOffer": reserve on the offer book, lock the maker's balance
    (restoring the offer and answering MakerInsufficientBalance when the
    lock fails), create the trade, return its id. The whole procedure is one
    transaction. *)
Definition accept_p2p_offer (now : Timestamp)
    (p_offer_id p_buyer_id p_buyer_wallet : string) (p_amount : Z) : Procedure :=
  λ db,
    match OfferBook.tryReserve p_offer_id p_amount (p2p_fiat_offers db) with
    | inl e => (failure (OfferBook.error_name e), db)
    | inr (snapshot, offers') =>
        match Ledger.lock (Offer.seller_id snapshot) (Offer.token snapshot) p_amount
                (balances db) with
        | None =>
            (failure "MakerInsufficientBalance",
             with_offers (λ _, OfferBook.restore p_offer_id p_amount offers') db)
        | Some ledger' =>
            let tid := new_trade_id (p2p_fiat_trades db) in
            (RpcData {| success := true; error := None; trade_id := Some tid |},
             {| p2p_fiat_offers := offers';
                p2p_fiat_trades :=
                  p2p_fiat_trades db ++
                    [new_trade now tid snapshot p_buyer_id p_buyer_wallet p_amount];
                p2p_reputation := p2p_reputation db;
                balances := ledger' |})
        end
    end.

End Server.

(* ================================================================== *)
(** * Concurrent calls of [acceptFiatOffer] *)
(* ================================================================== *)

(** How [acceptFiatOffer] ends once it calls the procedure. *)
Definition settle_accept (p : Procedure) : Async (option string) :=
  let* result := rpc p in
  let* response := check_response "Failed to accept offer" result in
  resolve (trade_id response).

Module Concurrent.

(** The arguments of one call and the session user it runs for. *)
Record Call := {
  call_user : option string;
  call_offer : string;
  call_wallet : string;
  call_amount : option Z;
}.

(** Where a call of [acceptFiatOffer] is suspended: at the [await] of the
    offer, of the reputation record, or of the accept procedure; or it has
    settled. *)
Inductive Task :=
| AwaitOffer
| AwaitReputation (user : string) (offer : P2PFiatOffer) (tradeAmount : Z)
| AwaitProcedure (user : string) (tradeAmount : Z)
| Settled (outcome : Result (option string)).

(** One database request of the call, with the code that follows it up to
    the next request. The procedure runs as one transaction at time [now]. *)
Definition step (now : Timestamp) (c : Call) (t : Task) (db : Database) : Task * Database :=
  match t with
  | AwaitOffer =>
      match call_user c with
      | None => (Settled (Throw (JsError "Not authenticated")), db)
      | Some user =>
          match single (offer_by_id (call_offer c) (p2p_fiat_offers db)) with
          | None => (Settled (Throw (JsError "Offer not found")), db)
          | Some offer =>
              let tradeAmount := number_or (call_amount c) (Offer.remaining_amount offer) in
              if (0 <? Offer.min_buyer_completed_trades offer)
                 || (0 <? Offer.min_buyer_reputation offer)
              then (AwaitReputation user offer tradeAmount, db)
              else (AwaitProcedure user tradeAmount, db)
          end
      end
  | AwaitReputation user offer tradeAmount =>
      match check_reputation user offer db with
      | (Ok _, db') => (AwaitProcedure user tradeAmount, db')
      | (Throw e, db') => (Settled (Throw e), db')
      end
  | AwaitProcedure user tradeAmount =>
      let (outcome, db') :=
        settle_accept
          (Server.accept_p2p_offer now (call_offer c) user (call_wallet c) tradeAmount) db in
      (Settled outcome, db')
  | Settled outcome => (Settled outcome, db)
  end.

Fixpoint run (n : nat) (now : Timestamp) (c : Call) (t : Task) (db : Database)
    : Task * Database :=
  match n with
  | O => (t, db)
  | S n => let (t', db') := step now c t db in run n now c t' db'
  end.

Definition settled (t : Task) : Prop :=
  match t with
  | Settled _ => True
  | _ => False
  end.

#[global] Instance settled_dec t : Decision (settled t).
Proof. destruct t; simpl; apply _. Defined.

(** The calls in flight share the database; at each moment one of the
    unsettled calls has its pending request served. *)
Inductive sys_step : Database * list (Call * Task) → Database * list (Call * Task) → Prop :=
| sys_step_task now db tasks i c t t' db' :
    tasks !! i = Some (c, t) →
    ¬ settled t →
    step now c t db = (t', db') →
    sys_step (db, tasks) (db', <[i := (c, t')]> tasks).

Definition start (calls : list Call) : list (Call * Task) :=
  (λ c, (c, AwaitOffer)) <$> calls.

Definition exceeds : Result (option string) :=
  Throw (JsError "AmountExceedsRemaining").

End Concurrent.

(* ================================================================== *)
(** * Vocabulary of the statements *)
(* ================================================================== *)

Definition set_pattern (p : option string) (rules : ValidationRule) : ValidationRule :=
  {| pattern := p; minLength := minLength rules;
     maxLength := maxLength rules; required := required rules |}.

(** What the loop leaves in [errors], field by field. *)
Definition loop_result (RegExp_test : string → string → option bool)
    (paymentDetails : gmap string string) (m : gmap string ValidationRule)
    (r : option (gmap string string)) : Prop :=
  match r with
  | Some errs =>
      ∀ k, match m !! k with
           | Some rules =>
               field_error RegExp_test (field_value paymentDetails k) rules = Some (errs !! k)
           | None => errs !! k = None
           end
  | None =>
      ∃ k rules, m !! k = Some rules ∧
        field_error RegExp_test (field_value paymentDetails k) rules = None
  end.

(** An optional filter of the listing is met by a value. *)
Definition meets {A} (wanted : option A) (x : A) : Prop :=
  match wanted with
  | Some v => x = v
  | None => True
  end.

Definition active (now : Timestamp) (currency : option FiatCurrency)
    (token : option CryptoToken) (o : P2PFiatOffer) : Prop :=
  Offer.status o = OfferOpen ∧ 0 < Offer.remaining_amount o ∧ now < Offer.expires_at o ∧
  meets currency (Offer.fiat_currency o) ∧ meets token (Offer.token o).

Definition same_thresholds (o o' : P2PFiatOffer) : Prop :=
  Offer.min_buyer_completed_trades o' = Offer.min_buyer_completed_trades o ∧
  Offer.min_buyer_reputation o' = Offer.min_buyer_reputation o.

(** A call that asks for 6 units of the offer, by a signed-in user who meets
    the offer's reputation requirements. *)
Definition asks_six (db0 : Database) (offerId : string) (offer : P2PFiatOffer)
    (c : Concurrent.Call) : Prop :=
  Concurrent.call_offer c = offerId ∧ Concurrent.call_amount c = Some 6 ∧
  ∃ u, Concurrent.call_user c = Some u ∧ check_reputation u offer db0 = (Ok tt, db0).

Definition task_ok (db0 : Database) (offerId : string) (offer : P2PFiatOffer)
    (ct : Concurrent.Call * Concurrent.Task) : Prop :=
  asks_six db0 offerId offer ct.1 ∧
  match ct.2 with
  | Concurrent.AwaitOffer => True
  | Concurrent.AwaitReputation u o' amt =>
      Concurrent.call_user ct.1 = Some u ∧ same_thresholds offer o' ∧ amt = 6
  | Concurrent.AwaitProcedure u amt => Concurrent.call_user ct.1 = Some u ∧ amt = 6
  | Concurrent.Settled out => (∃ tid, out = Ok (Some tid)) ∨ out = Concurrent.exceeds
  end.

(** Either no call has settled and the offer and the ledger are untouched,
    or one call has been granted its 6 units and every other settled call
    was refused. *)
Definition phase (db0 : Database) (offerId : string) (offer : P2PFiatOffer)
    (s : Database * list (Concurrent.Call * Concurrent.Task)) : Prop :=
  (Forall (λ ct, ¬ Concurrent.settled ct.2) s.2 ∧
   p2p_fiat_offers s.1 = p2p_fiat_offers db0 ∧ balances s.1 = balances db0)
  ∨
  (∃ i c tid,
     s.2 !! i = Some (c, Concurrent.Settled (Ok (Some tid))) ∧
     (∀ j c' out, j ≠ i → s.2 !! j = Some (c', Concurrent.Settled out) →
                  out = Concurrent.exceeds) ∧
     single (offer_by_id offerId (p2p_fiat_offers s.1)) =
       Some (OfferBook.reserved 6 offer)).

Definition invariant (db0 : Database) (offerId : string) (offer : P2PFiatOffer) (n : nat)
    (s : Database * list (Concurrent.Call * Concurrent.Task)) : Prop :=
  length s.2 = n ∧
  p2p_reputation s.1 = p2p_reputation db0 ∧
  Forall (task_ok db0 offerId offer) s.2 ∧
  phase db0 offerId offer s.

(** The sum of a weight over the rows of a table. *)
Definition total {A} (w : A → Z) (rows : list A) : Z :=
  foldr (λ r acc, w r + acc) 0 rows.

(** A call on the offer that names the amount it asks for. *)
Definition asks (offerId : string) (c : Concurrent.Call) : Prop :=
  Concurrent.call_offer c = offerId ∧
  ∃ a, Concurrent.call_amount c = Some a ∧ a ≠ 0.

(** The units a call has been granted: the amount it asked for once it has
    settled with a trade, nothing before that or when it was rejected. *)
Definition granted (ct : Concurrent.Call * Concurrent.Task) : Z :=
  match ct.2 with
  | Concurrent.Settled (Ok _) => number_or (Concurrent.call_amount ct.1) 0
  | _ => 0
  end.

(** What a suspended call holds of its earlier reads: the thresholds it has
    read are those of the offer, and it waits for the procedure only if its
    user passes the reputation requirements. *)
Definition in_flight (db0 : Database) (offerId : string) (offer : P2PFiatOffer)
    (ct : Concurrent.Call * Concurrent.Task) : Prop :=
  asks offerId ct.1 ∧
  match ct.2 with
  | Concurrent.AwaitReputation u o amt =>
      Concurrent.call_user ct.1 = Some u ∧ same_thresholds offer o ∧
      Concurrent.call_amount ct.1 = Some amt
  | Concurrent.AwaitProcedure u amt =>
      Concurrent.call_user ct.1 = Some u ∧ Concurrent.call_amount ct.1 = Some amt ∧
      check_reputation u offer db0 = (Ok tt, db0)
  | _ => True
  end.

(** The units left on the offer and the units granted so far add up to the
    units the offer had at the start, and none is owed. *)
Definition conserved (db0 : Database) (offerId : string) (offer : P2PFiatOffer)
    (s : Database * list (Concurrent.Call * Concurrent.Task)) : Prop :=
  p2p_reputation s.1 = p2p_reputation db0 ∧
  Forall (in_flight db0 offerId offer) s.2 ∧
  ∃ row,
    single (offer_by_id offerId (p2p_fiat_offers s.1)) = Some row ∧
    same_thresholds offer row ∧
    0 ≤ Offer.remaining_amount row ∧
    Offer.remaining_amount row + total granted s.2 = Offer.remaining_amount offer.

(** The number of requests a call has still to make, at most. *)
Definition rank (t : Concurrent.Task) : nat :=
  match t with
  | Concurrent.AwaitOffer => 3
  | Concurrent.AwaitReputation _ _ _ => 2
  | Concurrent.AwaitProcedure _ _ => 1
  | Concurrent.Settled _ => 0
  end.

Definition total_rank (tasks : list (Concurrent.Call * Concurrent.Task)) : nat :=
  sum_list ((λ ct, rank ct.2) <$> tasks).

(** Serve the pending request of call [i], if it has one. *)
Definition fire (now : Timestamp) (s : Database * list (Concurrent.Call * Concurrent.Task))
    (i : nat) : Database * list (Concurrent.Call * Concurrent.Task) :=
  match s.2 !! i with
  | Some (c, t) =>
      if decide (Concurrent.settled t) then s
      else let (t', db') := Concurrent.step now c t s.1 in (db', <[i := (c, t')]> s.2)
  | None => s
  end.

Definition schedule (now : Timestamp) (order : list nat)
    (s : Database * list (Concurrent.Call * Concurrent.Task))
    : Database * list (Concurrent.Call * Concurrent.Task) :=
  foldl (fire now) s order.


(* ================================================================== *)
(** * Scenarios *)
(* ================================================================== *)

Module Scenario.

(** An offer of 100 HEZ at 2 USD of which 30 are reserved by one trade. *)
Definition offer_1 : P2PFiatOffer :=
  Offer.mk "offer-1" "maker" "5Maker" HEZ 100 USD 200 2 "pm-1" "" None None 30 None
    0 0 OfferOpen 70 0 9000000.

Definition trade_1 : P2PFiatTrade :=
  Trade.mk "trade-1" "offer-1" "maker" "taker" "5Taker" 30 60 2 30
    None None None TradePending 1800000 None 0 None None None.

Definition ledger_1 : gmap (string * CryptoToken) Balance :=
  {[ ("maker", HEZ) :=
       {| available := 70; locked := 30; totalDeposited := 100; totalWithdrawn := 0 |} ]}.

(** The trade is pending. *)
Definition pending : Database :=
  {| p2p_fiat_offers := [offer_1]; p2p_fiat_trades := [trade_1];
     p2p_reputation := []; balances := ledger_1 |}.

(** The taker has marked the payment as sent at time 1000. *)
Definition paid : Database := snd (markPaymentSent Written 1000 "trade-1" None pending).

(** The maker has confirmed the payment at time 2000. *)
Definition completed : Database :=
  snd (confirmPaymentReceived Server.release_escrow_internal 2000 (Some "maker") "trade-1" paid).

(** The maker has cancelled the offer while the trade is pending. *)
Definition offer_withdrawn : Database :=
  with_offers (update_where (λ o, Offer.id o = "offer-1")
                 (Offer.update_remaining_status 70 OfferCancelled)) pending.

(** A market of four offers: one paused, one that expired at time 500. *)
Definition listed (id : string) (currency : FiatCurrency) (price : Z)
    (status : OfferStatus) (expires : Timestamp) : P2PFiatOffer :=
  Offer.mk id "maker" "5Maker" HEZ 100 currency (100 * price) price "pm-1" "" None None 30
    None 0 0 status 100 0 expires.

Definition market : Database :=
  {| p2p_fiat_offers :=
       [ listed "dear" USD 9 OfferOpen 9000000; listed "paused" USD 1 OfferPaused 9000000;
         listed "cheap" USD 2 OfferOpen 9000000; listed "expired" USD 3 OfferOpen 500;
         listed "euro" EUR 4 OfferOpen 9000000 ];
     p2p_fiat_trades := []; p2p_reputation := []; balances := ∅ |}.

(** An offer that asks for five completed trades. *)
Definition strict_offer : P2PFiatOffer :=
  Offer.mk "offer-5" "maker" "5Maker" HEZ 100 USD 200 2 "pm-1" "" None None 30 None
    5 0 OfferOpen 100 0 9000000.

Definition taker_reputation : P2PReputation :=
  {| user_id := "taker"; total_trades := 3; completed_trades := 2; cancelled_trades := 1;
     disputed_trades := 0; reputation_score := 40; trust_level := TrustBasic;
     verified_merchant := false; avg_payment_time_minutes := None |}.

Definition strict : Database :=
  {| p2p_fiat_offers := [strict_offer]; p2p_fiat_trades := [];
     p2p_reputation := [taker_reputation];
     balances := {[ ("maker", HEZ) :=
       {| available := 100; locked := 0; totalDeposited := 100; totalWithdrawn := 0 |} ]} |}.

(** An offer with 10 units left, open to anyone with one completed trade. *)
Definition last_ten : P2PFiatOffer :=
  Offer.mk "offer-10" "maker" "5Maker" HEZ 100 USD 200 2 "pm-1" "" (Some 1) (Some 50) 30 None
    1 0 OfferOpen 10 0 9000000.

Definition seasoned (user : string) : P2PReputation :=
  {| user_id := user; total_trades := 4; completed_trades := 4; cancelled_trades := 0;
     disputed_trades := 0; reputation_score := 90; trust_level := TrustIntermediate;
     verified_merchant := false; avg_payment_time_minutes := None |}.

Definition contested : Database :=
  {| p2p_fiat_offers := [last_ten]; p2p_fiat_trades := [];
     p2p_reputation := [seasoned "alice"; seasoned "bob"; seasoned "carol"];
     balances := {[ ("maker", HEZ) :=
       {| available := 10; locked := 0; totalDeposited := 10; totalWithdrawn := 0 |} ]} |}.

Definition six (user : string) : Concurrent.Call :=
  {| Concurrent.call_user := Some user; Concurrent.call_offer := "offer-10";
     Concurrent.call_wallet := "5" +:+ user; Concurrent.call_amount := Some 6 |}.

Definition three_calls : list Concurrent.Call := [six "alice"; six "bob"; six "carol"].

(** The three calls interleaved: all read the offer, then carol's
    reputation check and procedure call overtake the others. *)
Definition interleaved : Database * list (Concurrent.Call * Concurrent.Task) :=
  schedule 7000 [0; 1; 2; 2; 1; 2; 0; 0; 1]%nat (contested, Concurrent.start three_calls).

(** A toy engine: a value matches a pattern when it starts with it. *)
Definition prefix_test (p value : string) : option bool :=
  Some (bool_decide (String.substring 0 (String.length p) value = p)).

Definition details : gmap string string := {[ "name" := "Ada" ]}.

Definition iban_rule : ValidationRule :=
  {| pattern := Some "TR"; minLength := Some 5; maxLength := Some 34; required := None |}.

Definition rules : gmap string ValidationRule :=
  <[ "iban" := iban_rule ]>
  {[ "name" := {| pattern := None; minLength := None; maxLength := Some 40;
                  required := Some true |} ]}.

Definition verdict : ValidationResult :=
  {| valid := false; errors := {[ "iban" := "Minimum 5 characters" ]} |}.

End Scenario.

(* ================================================================== *)
(** * The rest of the library *)
(* ================================================================== *)

(** ** Reading trades and reputations *)

(** [.or(`seller_id.eq.${userId},buyer_id.eq.${userId}`)], for an id that
    holds no filter syntax of its own. *)
Definition involves (userId : string) (r : P2PFiatTrade) : Prop :=
  Trade.seller_id r = userId ∨ Trade.buyer_id r = userId.

#[global] Instance involves_dec userId r : Decision (involves userId r).
Proof. unfold involves. apply _. Defined.

(** [.order('created_at', { ascending: false })] *)
Definition newer_trade (a b : P2PFiatTrade) : Prop :=
  Trade.created_at b ≤ Trade.created_at a.

#[global] Instance newer_trade_dec a b : Decision (newer_trade a b).
Proof. unfold newer_trade. apply _. Defined.

(** As for [getActiveOffers], a failed request is answered with the empty
    list and the table always answers here. *)
Definition getUserTrades (userId : string) (db : Database) : list P2PFiatTrade :=
  merge_sort newer_trade (filter (involves userId) (p2p_fiat_trades db)).

(** [.single()] fails when no row or several rows are selected, and the
    failure is answered with [null]. *)
Definition getTradeById (tradeId : string) (db : Database) : option P2PFiatTrade :=
  single (trade_by_id tradeId (p2p_fiat_trades db)).

(** The failure of [.single()] on no row (PGRST116) is not raised, and any
    other is answered with [null]: in both cases [data] is [null]. *)
Definition getUserReputation (userId : string) (db : Database) : option P2PReputation :=
  single (reputation_by_user userId (p2p_reputation db)).

(** ** Payment methods *)

Inductive MethodType := Bank | MobilePayment | Cash | CryptoExchange.

Module PaymentMethod.
(** A row of [payment_methods]: the fields of the [PaymentMethod] interface,
    and the two columns [getPaymentMethods] selects and orders by. *)
Record t := mk {
  id : string;
  currency : FiatCurrency;
  country : string;
  method_name : string;
  method_type : MethodType;
  logo_url : option string;
  fields : gmap string string;
  validation_rules : gmap string ValidationRule;
  min_trade_amount : Z;
  max_trade_amount : option Z;
  processing_time_minutes : Z;
  is_active : bool;
  display_order : Z;
}.
End PaymentMethod.

(** [.order('display_order')] *)
Definition display_le (a b : PaymentMethod.t) : Prop :=
  PaymentMethod.display_order a ≤ PaymentMethod.display_order b.

#[global] Instance display_le_dec a b : Decision (display_le a b).
Proof. unfold display_le. apply _. Defined.

(** The table [payment_methods] is an argument: the rows the caller may
    read. *)
Definition getPaymentMethods (currency : FiatCurrency) (payment_methods : list PaymentMethod.t)
    : list PaymentMethod.t :=
  merge_sort display_le
    (filter (λ m, PaymentMethod.is_active m = true)
       (filter (λ m, PaymentMethod.currency m = currency) payment_methods)).

(** ** Internal balances *)

Module InternalBalance.
Record t := mk {
  token : CryptoToken;
  available_balance : Z;
  locked_balance : Z;
  total_balance : Z;
  total_deposited : Z;
  total_withdrawn : Z;
}.
End InternalBalance.

Section Balances.

(** The procedure [get_user_internal_balance]: the rows it answers, [None]
    when it fails or answers [null]. *)
Variable get_user_internal_balance : string → Database → option (list InternalBalance.t).

Definition getInternalBalances (user : option string) (db : Database)
    : list InternalBalance.t :=
  match user with
  | None => []
  | Some userId =>
      match get_user_internal_balance userId db with
      | None => []
      | Some data => data
      end
  end.

(** [balances.find(b => b.token === token) || null] *)
Definition getInternalBalance (user : option string) (token : CryptoToken) (db : Database)
    : option InternalBalance.t :=
  List.find (λ b, bool_decide (InternalBalance.token b = token))
    (getInternalBalances user db).

End Balances.

(** ** Withdrawals *)

Record WithdrawResponse := {
  withdraw_success : bool;
  withdraw_error : option string;
  request_id : option string;
}.

Inductive WithdrawResult :=
| WithdrawError (message : string)
| WithdrawData (response : WithdrawResponse).

Section Withdraw.

(** The procedure [request_withdraw]. *)
Variable request_withdraw :
  ∀ (p_user_id : string) (p_token : CryptoToken) (p_amount : Z) (p_wallet_address : string),
    Database → WithdrawResult * Database.

(** What follows the call of the procedure in [requestWithdraw]. *)
Definition settle_withdraw (answer : WithdrawResult * Database)
    : Result (option string) * Database :=
  match answer with
  | (WithdrawError message, db') => (Throw (PostgrestError message), db')
  | (WithdrawData response, db') =>
      if negb (withdraw_success response)
      then (Throw (JsError (string_or (withdraw_error response) "Request failed")), db')
      else (Ok (request_id response), db')
  end.

Definition requestWithdraw (user : option string) (token : CryptoToken) (amount : Z)
    (walletAddress : string) : Async (option string) :=
  match user with
  | None => throw (JsError "Not authenticated")
  | Some userId =>
      if amount <=? 0 then throw (JsError "Amount must be greater than 0")
      else if negb (truthy_string walletAddress) || (string_length walletAddress <? 40)
      then throw (JsError "Invalid wallet address")
      else λ db, settle_withdraw (request_withdraw userId token amount walletAddress db)
  end.

End Withdraw.

Inductive RequestType := Deposit | Withdraw.
Inductive RequestStatus :=
  RequestPending | RequestProcessing | RequestCompleted | RequestFailed | RequestCancelled.

Module Request.
Record t := mk {
  id : string;
  user_id : string;
  request_type : RequestType;
  token : CryptoToken;
  amount : Z;
  wallet_address : string;
  blockchain_tx_hash : option string;
  status : RequestStatus;
  processed_at : option Timestamp;
  error_message : option string;
  created_at : Timestamp;
}.
End Request.

Definition newer_request (a b : Request.t) : Prop :=
  Request.created_at b ≤ Request.created_at a.

#[global] Instance newer_request_dec a b : Decision (newer_request a b).
Proof. unfold newer_request. apply _. Defined.

(** [.order('created_at', { ascending: false }).limit(50)] on the rows of
    [p2p_deposit_withdraw_requests] the caller may read. *)
Definition getDepositWithdrawHistory (p2p_deposit_withdraw_requests : list Request.t)
    : list Request.t :=
  take 50 (merge_sort newer_request p2p_deposit_withdraw_requests).

(** ** The platform wallet *)

Module Config.
Record t := mk {
  key : string;
  value : option string;
}.
End Config.

Definition DEFAULT_ADDRESS : string := "5DFwqK698vL4gXHEcanaewnAqhxJ2rjhAogpSTHw3iwGDwd3".

(** [if (error) return DEFAULT_ADDRESS; return data?.value || DEFAULT_ADDRESS],
    on the rows of [p2p_config]. *)
Definition getPlatformWalletAddress (p2p_config : list Config.t) : string :=
  match single (filter (λ r, Config.key r = "platform_escrow_wallet") p2p_config) with
  | None => DEFAULT_ADDRESS
  | Some data => string_or (Config.value data) DEFAULT_ADDRESS
  end.

(* ================================================================== *)
(** * Identity and reputation ([src/lib/identity]) *)
(* ================================================================== *)

Inductive BadgeTier := Bronze | Silver | Gold | Platinum.

Module Badge.
Record t := mk {
  id : string;
  name : string;
  description : string;
  icon : string;
  earnedAt : option Timestamp;
  tier : BadgeTier;
}.
End Badge.

(** ['none' | 'basic' | 'verified' | 'premium'] *)
Inductive VerificationLevel := LevelNone | LevelBasic | LevelVerified | LevelPremium.

Definition calculateReputationScore {T} (_trades : list T)
    (verificationLevel : VerificationLevel) (badges : list Badge.t) : Z :=
  let score := 0 in
  (* Base score from verification level *)
  let score :=
    match verificationLevel with
    | LevelPremium => score + 40
    | LevelVerified => score + 30
    | LevelBasic => score + 15
    | LevelNone => score + 0
    end in
  (* Bonus from badges *)
  let score := score + Z.of_nat (length badges) * 5 in
  (* Cap at 100 *)
  Z.min score 100.

(** [b.toString(16)] for a byte [b]: one or two lowercase digits. *)
Definition hex_digit (n : N) : Ascii.ascii :=
  default (Ascii.ascii_of_nat 48)
    (String.list_ascii_of_string "0123456789abcdef" !! N.to_nat n).

Definition toString16 (b : Byte.byte) : string :=
  let n := Byte.to_N b in
  if (n <? 16)%N then String (hex_digit n) ""
  else String (hex_digit (n / 16)) (String (hex_digit (n mod 16)) "").

(** [s.padStart(2, '0')] *)
Definition padStart2 (s : string) : string :=
  match s with
  | "" => "00"
  | String c "" => String (Ascii.ascii_of_nat 48) (String c "")
  | _ => s
  end.

Section ZKProof.

(** [crypto.subtle.digest('SHA-256', new TextEncoder().encode(JSON.stringify(data)))]:
    the serialisation and the hash belong to the runtime. *)
Context {KYCData : Type}.
Variable digest : KYCData → list Byte.byte.

Definition generateZKProof (data : KYCData) : string :=
  foldr String.append "" ((λ b, padStart2 (toString16 b)) <$> digest data).

End ZKProof.

(* ================================================================== *)
(** * The screens that call the library *)
(* ================================================================== *)

Module User.
(** The user of the [AuthContext]. *)
Record t := mk {
  id : string;
  telegram_id : Z;
  telegram_username : option string;
  display_name : string;
  avatar_url : option string;
  wallet_address : option string;
  created_at : Timestamp;
}.
End User.

Definition token_name (t : CryptoToken) : string :=
  match t with
  | HEZ => "HEZ"
  | PEZ => "PEZ"
  end.

(** An optional number in a template string. *)
Definition shown (n : option Z) : string :=
  match n with
  | Some n => pretty n
  | None => "undefined"
  end.

(** What a handler of a screen ends with: a refusal (the error toast of the
    screen itself), the failure of the library call it made (which has shown
    its own toast), or its success. *)
Inductive Outcome (A : Type) :=
| Refused (message : string)
| Failed (e : Error)
| Done (a : A).
Arguments Refused {A} message.
Arguments Failed {A} e.
Arguments Done {A} a.

(** [try { a = await call; ... } catch { ... }] *)
Definition attempt {A} (call : Async A) (db : Database) : Outcome A * Database :=
  match call db with
  | (Ok a, db') => (Done a, db')
  | (Throw e, db') => (Failed e, db')
  end.

Section TradeModal.

Variable accept_p2p_offer :
  ∀ (p_offer_id p_buyer_id p_buyer_wallet : string) (p_amount : Z), Procedure.

(** [handleInitiateTrade] of [TradeModal]. [session] is the user of
    [supabase.auth], [user] the one of the [AuthContext], [offer] the offer
    the modal displays and [amount] is [parseFloat] of the text typed
    ([None] for [NaN]). *)
Definition handleInitiateTrade (session : option string) (user : option User.t)
    (offer : P2PFiatOffer) (amount : option Z) (db : Database)
    : Outcome (option string) * Database :=
  let cryptoAmount := number_or amount 0 in
  let isValidAmount :=
    (0 <? cryptoAmount) && (cryptoAmount <=? Offer.remaining_amount offer) in
  let meetsMinOrder :=
    match Offer.min_order_amount offer with
    | Some m => negb (truthy_number m) || (m <=? cryptoAmount)
    | None => true
    end in
  let meetsMaxOrder :=
    match Offer.max_order_amount offer with
    | Some m => negb (truthy_number m) || (cryptoAmount <=? m)
    | None => true
    end in
  match user with
  | None => (Refused "Please log in first", db)
  | Some user =>
      if bool_decide (Offer.seller_id offer = User.id user)
      then (Refused "You cannot trade with your own offer", db)
      else if negb isValidAmount then (Refused "Invalid amount", db)
      else if negb meetsMinOrder
      then (Refused ("Minimum order: " +:+ shown (Offer.min_order_amount offer)
                       +:+ " " +:+ token_name (Offer.token offer)), db)
      else if negb meetsMaxOrder
      then (Refused ("Maximum order: " +:+ shown (Offer.max_order_amount offer)
                       +:+ " " +:+ token_name (Offer.token offer)), db)
      else
        attempt (acceptFiatOffer accept_p2p_offer session (Offer.id offer)
                   (string_or (User.wallet_address user) "") (Some cryptoAmount)) db
  end.

End TradeModal.

Section WithdrawModal.

Variable request_withdraw :
  ∀ (p_user_id : string) (p_token : CryptoToken) (p_amount : Z) (p_wallet_address : string),
    Database → WithdrawResult * Database.

(** [handleWithdraw] of [WithdrawModal]. [amount] is [parseFloat] of the text
    typed ([None] for [NaN]) and [balance] the balance the modal has fetched,
    if it has. *)
Definition handleWithdraw (session : option string) (token : CryptoToken)
    (amount : option Z) (walletAddress : string) (balance : option InternalBalance.t)
    (db : Database) : Outcome (option string) * Database :=
  if negb (truthy_string walletAddress) then (Refused "Please enter wallet address", db)
  else
    match amount with
    | None => (Refused "Please enter a valid amount", db)
    | Some withdrawAmount =>
        if withdrawAmount <=? 0 then (Refused "Please enter a valid amount", db)
        else if match balance with
                | Some b => InternalBalance.available_balance b <? withdrawAmount
                | None => false
                end
        then (Refused "Insufficient balance", db)
        else attempt (requestWithdraw request_withdraw session token withdrawAmount
                        walletAddress) db
    end.

End WithdrawModal.

(** ** The trade screen *)

Inductive Action := IHavePaid | Cancel | ConfirmPaymentReceived.

#[global] Instance Action_eq_dec : EqDecision Action.
Proof. solve_decision. Defined.




Section TradeDetail.

Variable release_escrow_internal :
  ∀ (p_from_user_id p_to_user_id : string) (p_token : CryptoToken) (p_amount : Z)
    (p_reference_type p_reference_id : string), Procedure.


End TradeDetail.

(** ** The dashboard *)

Record UserStats := {
  activeTrades : Z;
  completedTrades : Z;
  totalVolume : Z;
}.

Definition is_active_trade (userId : string) (r : P2PFiatTrade) : Prop :=
  involves userId r ∧ Trade.status r ∈ [TradePending; TradePaymentSent].

Definition is_completed_trade (userId : string) (r : P2PFiatTrade) : Prop :=
  involves userId r ∧ Trade.status r = TradeCompleted.

#[global] Instance is_active_trade_dec userId r : Decision (is_active_trade userId r).
Proof. unfold is_active_trade. apply _. Defined.

#[global] Instance is_completed_trade_dec userId r : Decision (is_completed_trade userId r).
Proof. unfold is_completed_trade. apply _. Defined.

(** [fetchStats] of [P2PDashboard]: two counts and the sum
    [trades.reduce((sum, t) => sum + (t.fiat_amount || 0), 0)]. *)
Definition fetchStats (userId : string) (db : Database) : UserStats :=
  let activeCount := Z.of_nat (length (filter (is_active_trade userId) (p2p_fiat_trades db))) in
  let completedCount :=
    Z.of_nat (length (filter (is_completed_trade userId) (p2p_fiat_trades db))) in
  let trades := filter (is_completed_trade userId) (p2p_fiat_trades db) in
  let totalVolume := foldl (λ sum t, sum + Trade.fiat_amount t) 0 trades in
  {| activeTrades := activeCount; completedTrades := completedCount;
     totalVolume := totalVolume |}.

(* ================================================================== *)
(** * Vocabulary of the further statements *)
(* ================================================================== *)

(** The taker's reputation record, if any, meets what the offer asks of its
    counterparty. *)
Definition meets_thresholds (offer : P2PFiatOffer) (reputation : option P2PReputation) : Prop :=
  (Offer.min_buyer_completed_trades offer ≤ 0 ∧ Offer.min_buyer_reputation offer ≤ 0) ∨
  ∃ r, reputation = Some r ∧
       Offer.min_buyer_completed_trades offer ≤ completed_trades r ∧
       Offer.min_buyer_reputation offer ≤ reputation_score r.


(** The order of the verification levels. *)
Definition level_rank (l : VerificationLevel) : nat :=
  match l with
  | LevelNone => 0
  | LevelBasic => 1
  | LevelVerified => 2
  | LevelPremium => 3
  end.

(** Reading a proof back: the value of a hexadecimal digit, and the bytes
    of a string of two-digit groups. *)
Definition unhex_digit (c : Ascii.ascii) : option N :=
  let n := Ascii.N_of_ascii c in
  if (48 <=? n)%N && (n <=? 57)%N then Some (n - 48)%N
  else if (97 <=? n)%N && (n <=? 102)%N then Some (n - 87)%N
  else None.

Fixpoint unhex (s : string) : option (list Byte.byte) :=
  match s with
  | "" => Some []
  | String c1 (String c2 rest) =>
      h ← unhex_digit c1;
      l ← unhex_digit c2;
      b ← Byte.of_N (16 * h + l);
      bs ← unhex rest;
      Some (b :: bs)
  | _ => None
  end.

(** 1 for a row that has the property, 0 for the others. *)
Definition indicator {A} (P : A → Prop) `{∀ x, Decision (P x)} (r : A) : Z :=
  if decide (P r) then 1 else 0.

(** What the procedure leaves is turned into the outcome of the handler. *)
Definition outcome_of {A} (r : Result A * Database) : Outcome A * Database :=
  match r with
  | (Ok a, db') => (Done a, db')
  | (Throw e, db') => (Failed e, db')
  end.

(* ================================================================== *)
(** * Further scenarios *)
(* ================================================================== *)

Module Cases.

(** The pending trade of [Scenario.pending] has been cancelled by the taker. *)
Definition cancelled : Database :=
  (cancelTrade (Some "taker") "trade-1" None Scenario.pending).2.

(** The payment is marked as sent but the maker's ledger holds nothing. *)
Definition unfunded : Database := with_balances (λ _, ∅) Scenario.paid.

Definition alice : User.t := User.mk "alice" 1002 (Some "alice") "Alice" None None 0.

Definition config : list Config.t :=
  [ Config.mk "fee_rate" (Some "1"); Config.mk "platform_escrow_wallet" (Some "5Platform") ].

Definition two_balances (user : string) (db : Database) : option (list InternalBalance.t) :=
  Some [ InternalBalance.mk HEZ 70 30 100 100 0; InternalBalance.mk PEZ 5 0 5 5 0 ].

(** A withdraw procedure that accepts every request. *)
Definition accepting (p_user_id : string) (p_token : CryptoToken) (p_amount : Z)
    (p_wallet_address : string) (db : Database) : WithdrawResult * Database :=
  (WithdrawData {| withdraw_success := true; withdraw_error := None;
                   request_id := Some "request-1" |}, db).

(** The details of [Scenario.details] with a field no rule speaks of. *)
Definition details_with_note : gmap string string :=
  <[ "note" := "urgent" ]> Scenario.details.

(** Nothing is filled in. *)
Definition blank_verdict : ValidationResult :=
  {| valid := false;
     errors := <[ "name" := "This field is required" ]>
               {[ "iban" := "Minimum 5 characters" ]} |}.

End Cases.

(* ================================================================== *)
(** * Properties *)
(* ================================================================== *)

(** ** Validation *)

Section ValidationFacts.

Variable RegExp_test : string → string → option bool.
Variable paymentDetails : gmap string string.

Lemma validate_loop (m : gmap string ValidationRule) :
  loop_result RegExp_test paymentDetails m
    (map_fold (validate_entry RegExp_test paymentDetails) (Some ∅) m).
Proof.
  apply (map_fold_weak_ind (λ r m, loop_result RegExp_test paymentDetails m r)); clear m.
  - intros k. by rewrite !lookup_empty.
  - intros i rules m r Hi IH. unfold validate_entry.
    destruct r as [errs|]; simpl in *.
    + destruct (field_error _ _ rules) as [e|] eqn:He; simpl.
      * intros k. destruct (decide (i = k)) as [->|Hne].
        -- rewrite lookup_insert_eq, He. f_equal.
           destruct e as [msg|].
           ++ by rewrite lookup_insert_eq.
           ++ specialize (IH k). by rewrite Hi in IH.
        -- rewrite lookup_insert_ne by done.
           specialize (IH k).
           destruct e as [msg|]; [by rewrite lookup_insert_ne|done].
      * exists i, rules. by rewrite lookup_insert_eq.
    + destruct IH as (k & rules' & Hk & He).
      exists k, rules'. split; [|done].
      rewrite lookup_insert_ne; [done|]. intros ->. congruence.
Qed.

Lemma loop_result_unique (m : gmap string ValidationRule) r1 r2 :
  loop_result RegExp_test paymentDetails m r1 →
  loop_result RegExp_test paymentDetails m r2 → r1 = r2.
Proof.
  destruct r1 as [e1|], r2 as [e2|]; simpl; intros H1 H2.
  - f_equal. apply map_eq. intros k. specialize (H1 k). specialize (H2 k).
    destruct (m !! k); congruence.
  - destruct H2 as (k & rules & Hk & He). specialize (H1 k).
    rewrite Hk in H1. congruence.
  - destruct H1 as (k & rules & Hk & He). specialize (H2 k).
    rewrite Hk in H2. congruence.
  - done.
Qed.

Lemma field_error_empty_value (R' : string → string → option bool) p rules :
  field_error RegExp_test "" (set_pattern p rules) = field_error R' "" rules.
Proof.
  unfold field_error, set_pattern; simpl.
  destruct (bool_decide (required rules = Some true)); simpl; [done|].
  destruct p, (pattern rules); simpl; rewrite ?andb_false_r; done.
Qed.

Lemma field_error_min_length rules n :
  minLength rules = Some n → 0 < n →
  ∃ msg, field_error RegExp_test "" rules = Some (Some msg).
Proof.
  intros Hmin Hn. unfold field_error. rewrite Hmin.
  change (string_length "") with 0.
  destruct (bool_decide (required rules = Some true)); simpl; [by eexists|].
  assert (truthy_number n && (0 <? n) = true) as ->.
  { unfold truthy_number. apply andb_true_iff. split.
    - apply negb_true_iff, Z.eqb_neq. lia.
    - by apply Z.ltb_lt. }
  destruct (pattern rules) as [p|]; simpl; rewrite ?andb_false_r; simpl;
    destruct (maxLength rules) as [mx|]; try destruct (_ && _); by eexists.
Qed.

End ValidationFacts.

(** C10. [validatePaymentDetails] answers [valid = true] exactly when its
    [errors] map is empty. A field whose rules carry a (positive) [minLength]
    and whose value is left empty gets an error, whether or not it is marked
    [required]. For a field left empty the [pattern] rule is skipped: the
    result is the same whatever pattern the field's rules hold. *)
Theorem validatePaymentDetails_valid_minLength_pattern
    (RegExp_test : string → string → option bool)
    (paymentDetails : gmap string string)
    (validationRules : gmap string ValidationRule) (r : ValidationResult) :
  validatePaymentDetails RegExp_test paymentDetails validationRules = Some r →
  (valid r = true ↔ errors r = ∅) ∧
  (∀ field rules n,
      validationRules !! field = Some rules →
      field_value paymentDetails field = "" →
      minLength rules = Some n → 0 < n →
      is_Some (errors r !! field) ∧ valid r = false) ∧
  (∀ field rules p,
      validationRules !! field = Some rules →
      field_value paymentDetails field = "" →
      validatePaymentDetails RegExp_test paymentDetails
        (<[field := set_pattern p rules]> validationRules) = Some r).
Proof.
  unfold validatePaymentDetails. intros Hr.
  pose proof (validate_loop RegExp_test paymentDetails validationRules) as Hloop.
  destruct (map_fold _ _ validationRules) as [errs|] eqn:Hfold; simplify_eq/=.
  assert (∀ field rules n,
    validationRules !! field = Some rules →
    field_value paymentDetails field = "" →
    minLength rules = Some n → 0 < n → is_Some (errs !! field)) as Hmin.
  { intros field rules n Hf Hv Hm Hn. specialize (Hloop field).
    rewrite Hf, Hv in Hloop.
    destruct (field_error_min_length RegExp_test rules n Hm Hn) as [msg Hmsg].
    rewrite Hmsg in Hloop. injection Hloop as <-. by eexists. }
  split; [|split].
  - rewrite bool_decide_eq_true. apply map_size_empty_iff.
  - intros field rules n Hf Hv Hm Hn. split; [by eapply Hmin|].
    apply bool_decide_eq_false. rewrite map_size_empty_iff. intros ->.
    destruct (Hmin field rules n Hf Hv Hm Hn) as [x Hx].
    by rewrite lookup_empty in Hx.
  - intros field rules p Hf Hv.
    pose proof (validate_loop RegExp_test paymentDetails
                  (<[field := set_pattern p rules]> validationRules)) as Hloop'.
    rewrite (loop_result_unique RegExp_test paymentDetails
               (<[field := set_pattern p rules]> validationRules) _ (Some errs) Hloop');
      [done|].
    intros k. destruct (decide (field = k)) as [<-|Hne].
    + rewrite lookup_insert_eq, Hv, (field_error_empty_value _ RegExp_test).
      specialize (Hloop field). by rewrite Hf, Hv in Hloop.
    + rewrite lookup_insert_ne by done. apply Hloop.
Qed.

(** ** The listing of active offers *)

#[global] Instance price_le_total : Total price_le.
Proof. intros a b. unfold price_le. lia. Qed.

#[global] Instance price_le_trans : Transitive price_le.
Proof. intros a b c. unfold price_le. lia. Qed.

Lemma getActiveOffers_elem now currency token db o :
  o ∈ getActiveOffers now currency token db ↔
  o ∈ p2p_fiat_offers db ∧ active now currency token o.
Proof.
  unfold getActiveOffers, order_by_price.
  rewrite merge_sort_Permutation, list_elem_of_filter.
  unfold active, meets, satisfies.
  destruct currency, token; simpl;
    rewrite ?Is_true_true, ?andb_true_iff, ?bool_decide_eq_true, ?Z.ltb_lt;
    tauto.
Qed.

(** C7. Every offer returned by [getActiveOffers] is a row of the table
    that is open, has a positive remaining amount, expires after the
    current time and matches the currency and token filters that were
    supplied; every such row is returned; and the result is in ascending
    order of [price_per_unit]. *)
Theorem getActiveOffers_active_sorted now currency token db :
  Forall (active now currency token) (getActiveOffers now currency token db) ∧
  (∀ o, o ∈ getActiveOffers now currency token db ↔
        o ∈ p2p_fiat_offers db ∧ active now currency token o) ∧
  StronglySorted price_le (getActiveOffers now currency token db).
Proof.
  split; [|split].
  - apply Forall_forall. intros o Ho. by apply getActiveOffers_elem in Ho as [_ ?].
  - intros o. apply getActiveOffers_elem.
  - apply StronglySorted_merge_sort; apply _.
Qed.

Example getActiveOffers_market :
  Offer.id <$> getActiveOffers 1000 (Some USD) None Scenario.market = ["cheap"; "dear"] ∧
  Offer.id <$> getActiveOffers 1000 None None Scenario.market = ["cheap"; "euro"; "dear"].
Proof. split; vm_compute; reflexivity. Qed.

(** ** Accepting an offer *)

Lemma check_reputation_reads user offer db :
  snd (check_reputation user offer db) = db.
Proof.
  unfold check_reputation, await, select, throw, resolve.
  destruct (_ || _); [|done]; simpl.
  destruct (single _) as [r|]; [|done].
  by repeat destruct (_ <? _).
Qed.

Lemma acceptFiatOffer_reaches_procedure accept_p2p_offer user offerId buyerWallet amount db offer :
  single (offer_by_id offerId (p2p_fiat_offers db)) = Some offer →
  check_reputation user offer db = (Ok tt, db) →
  acceptFiatOffer accept_p2p_offer (Some user) offerId buyerWallet amount db =
  settle_accept
    (accept_p2p_offer offerId user buyerWallet
       (number_or amount (Offer.remaining_amount offer))) db.
Proof.
  intros Hoffer Hrep.
  unfold acceptFiatOffer, settle_accept, await at 1, select. rewrite Hoffer.
  unfold await at 1. by rewrite Hrep.
Qed.

Lemma acceptFiatOffer_gate_rejects accept_p2p_offer user offerId buyerWallet amount db offer e :
  single (offer_by_id offerId (p2p_fiat_offers db)) = Some offer →
  check_reputation user offer db = (Throw e, db) →
  acceptFiatOffer accept_p2p_offer (Some user) offerId buyerWallet amount db = (Throw e, db).
Proof.
  intros Hoffer Hrep.
  unfold acceptFiatOffer, await at 1, select. rewrite Hoffer.
  unfold await at 1. by rewrite Hrep.
Qed.

Lemma threshold_set (a b : Z) :
  0 ≤ a → 0 ≤ b → a ≠ 0 ∨ b ≠ 0 → (0 <? a) || (0 <? b) = true.
Proof. intros. apply orb_true_iff. rewrite !Z.ltb_lt. lia. Qed.

(** C4. When the offer sets a non-zero threshold (thresholds are counts and
    scores, never negative), [acceptFiatOffer] rejects a taker who has no
    reputation record ("Seller requires experienced buyers", the
    insufficient-history rejection), a taker whose [completed_trades] is
    below the offer's minimum, and a taker whose [reputation_score] is below
    the offer's minimum. In each case the database is left as it was,
    whatever the accept procedure would have done: it is not called. *)
Theorem acceptFiatOffer_reputation_gate
    (accept_p2p_offer : string → string → string → Z → Procedure)
    (user offerId buyerWallet : string) (amount : option Z)
    (db : Database) (offer : P2PFiatOffer) :
  single (offer_by_id offerId (p2p_fiat_offers db)) = Some offer →
  0 ≤ Offer.min_buyer_completed_trades offer →
  0 ≤ Offer.min_buyer_reputation offer →
  Offer.min_buyer_completed_trades offer ≠ 0 ∨ Offer.min_buyer_reputation offer ≠ 0 →
  (single (reputation_by_user user (p2p_reputation db)) = None →
     acceptFiatOffer accept_p2p_offer (Some user) offerId buyerWallet amount db =
     (Throw (JsError "Seller requires experienced buyers"), db)) ∧
  (∀ reputation,
     single (reputation_by_user user (p2p_reputation db)) = Some reputation →
     completed_trades reputation < Offer.min_buyer_completed_trades offer ∨
     reputation_score reputation < Offer.min_buyer_reputation offer →
     ∃ message,
       acceptFiatOffer accept_p2p_offer (Some user) offerId buyerWallet amount db =
       (Throw (JsError message), db)).
Proof.
  intros Hoffer Ht Hr Hset. pose proof (threshold_set _ _ Ht Hr Hset) as Hgate.
  split.
  - intros Hnone. eapply acceptFiatOffer_gate_rejects; [done|].
    unfold check_reputation, await, select. by rewrite Hgate, Hnone.
  - intros reputation Hsome Hlow.
    destruct (completed_trades reputation <? Offer.min_buyer_completed_trades offer) eqn:Hc.
    + eexists. eapply acceptFiatOffer_gate_rejects; [done|].
      unfold check_reputation, await, select. by rewrite Hgate, Hsome, Hc.
    + assert ((reputation_score reputation <? Offer.min_buyer_reputation offer) = true) as Hs.
      { apply Z.ltb_ge in Hc. apply Z.ltb_lt. lia. }
      eexists. eapply acceptFiatOffer_gate_rejects; [done|].
      unfold check_reputation, await, select. by rewrite Hgate, Hsome, Hc, Hs.
Qed.

(** C8. When [acceptFiatOffer] is called without an amount, the trade amount
    is the [remaining_amount] of the offer as it was read, and that amount
    is the [p_amount] the accept procedure is called with. *)
Theorem acceptFiatOffer_default_amount
    (accept_p2p_offer : string → string → string → Z → Procedure)
    (user offerId buyerWallet : string) (db : Database) (offer : P2PFiatOffer) :
  single (offer_by_id offerId (p2p_fiat_offers db)) = Some offer →
  check_reputation user offer db = (Ok tt, db) →
  acceptFiatOffer accept_p2p_offer (Some user) offerId buyerWallet None db =
  settle_accept
    (accept_p2p_offer offerId user buyerWallet (Offer.remaining_amount offer)) db.
Proof. intros. by erewrite acceptFiatOffer_reaches_procedure. Qed.

(** C9. An explicit amount of 0 is not rejected: [acceptFiatOffer] behaves as
    when the amount is left out, and the accept procedure is called with the
    offer's full [remaining_amount]. *)
Theorem acceptFiatOffer_zero_amount
    (accept_p2p_offer : string → string → string → Z → Procedure)
    (user : option string) (offerId buyerWallet : string) (db : Database) :
  acceptFiatOffer accept_p2p_offer user offerId buyerWallet (Some 0) db =
  acceptFiatOffer accept_p2p_offer user offerId buyerWallet None db ∧
  ∀ u offer,
    user = Some u →
    single (offer_by_id offerId (p2p_fiat_offers db)) = Some offer →
    check_reputation u offer db = (Ok tt, db) →
    acceptFiatOffer accept_p2p_offer user offerId buyerWallet (Some 0) db =
    settle_accept
      (accept_p2p_offer offerId u buyerWallet (Offer.remaining_amount offer)) db.
Proof.
  split; [done|]. intros u offer -> Hoffer Hrep.
  by erewrite acceptFiatOffer_reaches_procedure.
Qed.

(** ** Rows and updates *)

Section Rows.

Context {A K : Type} `{EqDecision K} (key : A → K).

Lemma filter_update_where_same (k : K) (patch : A → A) (rows : list A) :
  (∀ r, key (patch r) = key r) →
  filter (λ r, key r = k) (update_where (λ r, key r = k) patch rows) =
  patch <$> filter (λ r, key r = k) rows.
Proof.
  intros Hkey. unfold update_where.
  induction rows as [|r rows IH]; [done|]. rewrite fmap_cons.
  destruct (decide (key r = k)) as [Hr|Hr].
  - rewrite !filter_cons_True by (by rewrite ?Hkey). by rewrite fmap_cons, IH.
  - by rewrite !filter_cons_False.
Qed.

Lemma filter_update_where_other (k k' : K) (patch : A → A) (rows : list A) :
  (∀ r, key (patch r) = key r) → k ≠ k' →
  filter (λ r, key r = k') (update_where (λ r, key r = k) patch rows) =
  filter (λ r, key r = k') rows.
Proof.
  intros Hkey Hne. unfold update_where.
  induction rows as [|r rows IH]; [done|]. rewrite fmap_cons.
  destruct (decide (key r = k)) as [Hr|Hr].
  - rewrite !filter_cons_False; [done|congruence|rewrite Hkey; congruence].
  - destruct (decide (key r = k')).
    + by rewrite !filter_cons_True, IH.
    + by rewrite !filter_cons_False.
Qed.

End Rows.

Lemma single_fmap {A B} (f : A → B) (rows : list A) :
  single (f <$> rows) = f <$> single rows.
Proof. by destruct rows as [|? [|]]. Qed.

(** ** The ledger *)



(** ** Confirming a payment *)


(** ** Cancelling a trade *)

Lemma cancelTrade_keeps_ledger user tradeId reason db :
  balances (snd (cancelTrade user tradeId reason db)) = balances db.
Proof.
  unfold cancelTrade. destruct user as [u|]; [|done].
  unfold await at 1, select.
  destruct (single (trade_by_id tradeId (p2p_fiat_trades db))) as [trade|]; [|done].
  simpl. destruct (bool_decide (Trade.status trade = TradePending)); [|done].
  simpl. unfold await, execute, select, resolve. simpl.
  by destruct (single _).
Qed.


Lemma cancelTrade_rejects_unchanged user tradeId reason db e db' :
  cancelTrade user tradeId reason db = (Throw e, db') → db' = db.
Proof.
  unfold cancelTrade, throw. intros H. destruct user as [u|]; [|by simplify_eq].
  unfold await at 1, select in H.
  destruct (single (trade_by_id tradeId (p2p_fiat_trades db))) as [trade|];
    [|by simplify_eq].
  simpl in H.
  destruct (bool_decide (Trade.status trade = TradePending)); simpl in H;
    [|by simplify_eq].
  unfold await, execute, select, resolve in H. simpl in H.
  by destruct (single _) in H.
Qed.

(** What [cancelTrade] writes on the offer: the amount back, and [open],
    whatever the status was. *)
Lemma cancelTrade_restores_offer user tradeId reason db db' trade offer :
  cancelTrade user tradeId reason db = (Ok tt, db') →
  single (trade_by_id tradeId (p2p_fiat_trades db)) = Some trade →
  single (offer_by_id (Trade.offer_id trade) (p2p_fiat_offers db)) = Some offer →
  single (offer_by_id (Trade.offer_id trade) (p2p_fiat_offers db')) =
    Some (Offer.update_remaining_status
            (Offer.remaining_amount offer + Trade.crypto_amount trade) OfferOpen offer).
Proof.
  unfold cancelTrade. intros H Htrade Hoffer. destruct user as [u|]; [|done].
  unfold await at 1, select in H. rewrite Htrade in H. simpl in H.
  destruct (bool_decide (Trade.status trade = TradePending)); [|done].
  simpl in H. unfold await, execute, select, resolve in H. simpl in H.
  rewrite Hoffer in H. injection H as <-. simpl.
  unfold offer_by_id in *.
  rewrite (filter_update_where_same Offer.id) by done.
  by rewrite single_fmap, Hoffer.
Qed.

(** C1. On the pending trade of 30 HEZ, [cancelTrade] succeeds, cancels the
    trade and gives the 30 HEZ back to the offer (70 becomes 100); the
    maker's ledger balance is what it was: 30 HEZ still locked, 70 available,
    where the specification asks for the unlock of the 30 HEZ: 0 locked and 100
    available. *)
Theorem cancelTrade_leaves_escrow_locked :
  ∃ db',
    cancelTrade (Some "taker") "trade-1" None Scenario.pending = (Ok tt, db') ∧
    Trade.status <$> single (trade_by_id "trade-1" (p2p_fiat_trades db')) = Some TradeCancelled ∧
    Offer.remaining_amount <$> single (offer_by_id "offer-1" (p2p_fiat_offers db')) = Some 100 ∧
    Ledger.balance_of (balances Scenario.pending) "maker" HEZ =
      {| available := 70; locked := 30; totalDeposited := 100; totalWithdrawn := 0 |} ∧
    Ledger.balance_of (balances db') "maker" HEZ =
      {| available := 70; locked := 30; totalDeposited := 100; totalWithdrawn := 0 |} ∧
    Ledger.balance_of (Ledger.unlock "maker" HEZ 30 (balances Scenario.pending)) "maker" HEZ =
      {| available := 100; locked := 0; totalDeposited := 100; totalWithdrawn := 0 |}.
Proof. eexists. repeat split; vm_compute; reflexivity. Qed.

(** C5. The maker has cancelled the offer while a trade on it is pending.
    Cancelling that trade writes [status: 'open'] on the offer along with the
    restored amount: the cancelled offer is open again, where the specification asks
    that it stays cancelled, as it does under the [restore] of the offer
    book. *)
Theorem cancelTrade_reopens_cancelled_offer :
  Offer.status <$> single (offer_by_id "offer-1" (p2p_fiat_offers Scenario.offer_withdrawn))
    = Some OfferCancelled ∧
  (∃ db',
    cancelTrade (Some "taker") "trade-1" None Scenario.offer_withdrawn = (Ok tt, db') ∧
    Offer.status <$> single (offer_by_id "offer-1" (p2p_fiat_offers db')) = Some OfferOpen ∧
    Offer.remaining_amount <$> single (offer_by_id "offer-1" (p2p_fiat_offers db')) = Some 100) ∧
  Offer.status <$>
    single (offer_by_id "offer-1"
              (OfferBook.restore "offer-1" 30 (p2p_fiat_offers Scenario.offer_withdrawn)))
    = Some OfferCancelled.
Proof. split; [|split; [eexists; repeat split|]]; vm_compute; reflexivity. Qed.

(** ** Marking a payment as sent *)

Lemma markPaymentSent_unguarded now tradeId proof db trade :
  single (trade_by_id tradeId (p2p_fiat_trades db)) = Some trade →
  ∃ db',
    markPaymentSent Written now tradeId proof db = (Ok tt, db') ∧
    single (trade_by_id tradeId (p2p_fiat_trades db')) =
      Some (Trade.mark_paid now proof (now + 60 * 60 * 1000) trade).
Proof.
  intros Htrade. eexists. split; [done|]. simpl.
  unfold trade_by_id in *.
  rewrite (filter_update_where_same Trade.id) by done.
  by rewrite single_fmap, Htrade.
Qed.

(** C3. [markPaymentSent] reads neither the caller nor the trade's status. On
    the trade the maker has already confirmed ([completed], 30 HEZ released)
    it succeeds, its update being served like any other, and puts the trade
    back in [payment_sent] with a new confirmation deadline, 60 minutes
    after the call, where the specification asks that a trade in any status
    other than [pending] is left unchanged. *)
Theorem markPaymentSent_rewinds_completed_trade :
  Trade.status <$> single (trade_by_id "trade-1" (p2p_fiat_trades Scenario.completed))
    = Some TradeCompleted ∧
  ∃ db',
    markPaymentSent Written 5000 "trade-1" None Scenario.completed = (Ok tt, db') ∧
    Trade.status <$> single (trade_by_id "trade-1" (p2p_fiat_trades db'))
      = Some TradePaymentSent ∧
    Trade.confirmation_deadline <$> single (trade_by_id "trade-1" (p2p_fiat_trades db'))
      = Some (Some (5000 + 3600000)).
Proof. split; [|eexists; repeat split]; vm_compute; reflexivity. Qed.

(** ** Concurrent calls of [acceptFiatOffer] *)


Lemma run_alone now c db :
  Concurrent.run 3 now c Concurrent.AwaitOffer db =
  let (outcome, db') :=
    acceptFiatOffer (Server.accept_p2p_offer now) (Concurrent.call_user c)
      (Concurrent.call_offer c) (Concurrent.call_wallet c) (Concurrent.call_amount c) db in
  (Concurrent.Settled outcome, db').
Proof.
  unfold acceptFiatOffer. simpl. destruct (Concurrent.call_user c) as [user|]; [|done].
  unfold await at 1, select.
  destruct (single (offer_by_id _ _)) as [offer|]; [|done].
  unfold await at 1.
  destruct (_ || _) eqn:Hg.
  - cbn [Concurrent.step].
    destruct (check_reputation user offer db) as [[[]|e] db1]; [|done].
    cbn [Concurrent.step]. unfold settle_accept. by destruct (await _ _ _).
  - unfold check_reputation. rewrite Hg. unfold resolve at 1.
    cbn [Concurrent.step]. unfold settle_accept. by destruct (await _ _ _).
Qed.

Lemma check_reputation_ext u o o' db0 db :
  p2p_reputation db = p2p_reputation db0 →
  same_thresholds o o' →
  check_reputation u o db0 = (Ok tt, db0) →
  check_reputation u o' db = (Ok tt, db).
Proof.
  intros Hrep [Ht Hr]. unfold check_reputation. rewrite Ht, Hr.
  destruct (_ || _); [|done].
  unfold await, select. rewrite Hrep.
  destruct (single _) as [r|]; [|done].
  destruct (_ <? _); [done|]. by destruct (_ <? _).
Qed.

Section Reservations.

Import Concurrent.

Variables (db0 : Database) (offerId : string) (offer : P2PFiatOffer).
Hypothesis Hoffer : single (offer_by_id offerId (p2p_fiat_offers db0)) = Some offer.
Hypothesis Hopen : Offer.status offer = OfferOpen.
Hypothesis Hremaining : Offer.remaining_amount offer = 10.
Hypothesis Hmin : ∀ m, Offer.min_order_amount offer = Some m → m ≤ 6.
Hypothesis Hmax : ∀ m, Offer.max_order_amount offer = Some m → 6 ≤ m.
Hypothesis Hfunds :
  6 ≤ available (Ledger.balance_of (balances db0) (Offer.seller_id offer) (Offer.token offer)).

Lemma reserve_guard_first : OfferBook.reserve_guard 6 offer = None.
Proof.
  unfold OfferBook.reserve_guard. rewrite Hopen, Hremaining. simpl.
  destruct (Offer.min_order_amount offer) as [m|] eqn:Em.
  - specialize (Hmin m eq_refl). destruct (6 <? m) eqn:E; [apply Z.ltb_lt in E; lia|].
    destruct (Offer.max_order_amount offer) as [m'|] eqn:Em'; [|done].
    specialize (Hmax m' eq_refl). destruct (m' <? 6) eqn:E'; [apply Z.ltb_lt in E'; lia|done].
  - destruct (Offer.max_order_amount offer) as [m'|] eqn:Em'; [|done].
    specialize (Hmax m' eq_refl). destruct (m' <? 6) eqn:E'; [apply Z.ltb_lt in E'; lia|done].
Qed.

Lemma reserve_guard_second :
  OfferBook.reserve_guard 6 (OfferBook.reserved 6 offer) = Some OfferBook.AmountExceedsRemaining.
Proof.
  unfold OfferBook.reserve_guard, OfferBook.reserved. simpl.
  by rewrite Hremaining, Hopen.
Qed.

Lemma reserved_same_thresholds : same_thresholds offer (OfferBook.reserved 6 offer).
Proof. done. Qed.

(** The first reservation is granted. *)
Lemma procedure_grants now u w db :
  p2p_fiat_offers db = p2p_fiat_offers db0 →
  balances db = balances db0 →
  ∃ tid db',
    settle_accept (Server.accept_p2p_offer now offerId u w 6) db = (Ok (Some tid), db') ∧
    p2p_reputation db' = p2p_reputation db ∧
    single (offer_by_id offerId (p2p_fiat_offers db')) = Some (OfferBook.reserved 6 offer).
Proof.
  intros Ho Hb.
  unfold settle_accept, await, rpc, Server.accept_p2p_offer, OfferBook.tryReserve.
  rewrite Ho, Hoffer, reserve_guard_first. unfold Ledger.lock. rewrite Hb.
  change (Offer.seller_id (OfferBook.reserved 6 offer)) with (Offer.seller_id offer).
  change (Offer.token (OfferBook.reserved 6 offer)) with (Offer.token offer).
  destruct (_ <? 6) eqn:E; [apply Z.ltb_lt in E; lia|].
  simpl. eexists _, _. split; [done|]. split; [done|]. simpl.
  unfold offer_by_id in *.
  rewrite (filter_update_where_same Offer.id) by done.
  by rewrite single_fmap, Hoffer.
Qed.

(** Once 6 of the 10 units are gone, a reservation of 6 is refused and
    nothing is written. *)
Lemma procedure_refuses now u w db :
  single (offer_by_id offerId (p2p_fiat_offers db)) = Some (OfferBook.reserved 6 offer) →
  settle_accept (Server.accept_p2p_offer now offerId u w 6) db = (exceeds, db).
Proof.
  intros Ho.
  unfold settle_accept, await, rpc, Server.accept_p2p_offer, OfferBook.tryReserve.
  by rewrite Ho, reserve_guard_second.
Qed.

Lemma phase_offer s :
  phase db0 offerId offer s →
  ∃ o', single (offer_by_id offerId (p2p_fiat_offers s.1)) = Some o' ∧
        same_thresholds offer o'.
Proof.
  intros [(_ & Ho & _)|(i & c & tid & _ & _ & Ho)].
  - exists offer. by rewrite Ho.
  - exists (OfferBook.reserved 6 offer). split; [done|apply reserved_same_thresholds].
Qed.

(** A step that leaves the database alone and settles nothing keeps the
    phase. *)
Lemma phase_insert_unsettled db tasks i c t t' :
  tasks !! i = Some (c, t) → ¬ settled t → ¬ settled t' →
  phase db0 offerId offer (db, tasks) →
  phase db0 offerId offer (db, <[i := (c, t')]> tasks).
Proof.
  intros Hi Ht Ht' [(Hall & Ho & Hb)|(i0 & c0 & tid & Hi0 & Hothers & Ho)].
  - left. split; [|done]. simpl in *. by apply Forall_insert.
  - right. assert (i ≠ i0) as Hne.
    { intros ->. simpl in *. rewrite Hi in Hi0. injection Hi0 as _ ->. by apply Ht. }
    exists i0, c0, tid. simpl in *. split; [by rewrite list_lookup_insert_ne|].
    split; [|done]. intros j c' out Hj Hlook.
    destruct (decide (i = j)) as [->|Hij].
    + rewrite list_lookup_insert_eq in Hlook by (by eapply lookup_lt_Some).
      injection Hlook as <- ->. by destruct Ht'.
    + rewrite list_lookup_insert_ne in Hlook by done. by eapply Hothers.
Qed.

Lemma invariant_step n s s' :
  invariant db0 offerId offer n s → sys_step s s' → invariant db0 offerId offer n s'.
Proof.
  intros (Hlen & Hrep & Hok & Hphase) Hstep.
  destruct Hstep as [now db tasks i c t t' db' Hi Hns Hstep]. simpl in *.
  pose proof (Forall_lookup_1 _ _ _ _ Hok Hi) as [Hcall Hshape]. simpl in *.
  pose proof Hcall as (Hcoffer & Hcamount & u & Hcuser & Hgate).
  destruct t as [|u' o' amt|u' amt|out]; simpl in *; [| | |done].
  - (* the offer is read *)
    destruct (phase_offer _ Hphase) as (o' & Ho' & Hthr). simpl in Ho'.
    rewrite Hcuser, Hcoffer, Ho', Hcamount in Hstep. simpl in Hstep.
    assert (db' = db ∧ ¬ settled t' ∧ task_ok db0 offerId offer (c, t')) as (-> & Hns' & Hok').
    { destruct (_ || _); injection Hstep as <- <-;
        (split; [done|]); (split; [simpl; tauto|]); (split; [exact Hcall|]);
        simpl; auto. }
    unfold invariant; simpl. split; [by rewrite length_insert|]. split; [done|].
    split; [by apply Forall_insert|].
    by eapply phase_insert_unsettled.
  - (* the reputation record is read *)
    destruct Hshape as (Hu & Hthr & ->). assert (u' = u) as -> by congruence.
    rewrite (check_reputation_ext u offer o' db0 db Hrep Hthr Hgate) in Hstep.
    injection Hstep as <- <-.
    unfold invariant; simpl. split; [by rewrite length_insert|]. split; [done|].
    split; [by apply Forall_insert|].
    by eapply phase_insert_unsettled.
  - (* the procedure runs *)
    destruct Hshape as (Hu & ->). assert (u' = u) as -> by congruence.
    rewrite Hcoffer in Hstep.
    destruct Hphase as [(Hall & Ho & Hb)|(i0 & c0 & tid & Hi0 & Hothers & Ho)]; simpl in *.
    + destruct (procedure_grants now u (call_wallet c) db Ho Hb)
        as (tid & db1 & Hrun & Hrep1 & Ho1).
      rewrite Hrun in Hstep. injection Hstep as <- <-.
      unfold invariant; simpl. split; [by rewrite length_insert|]. split; [by rewrite Hrep1|].
      split; [apply Forall_insert; [done|]; split; simpl; eauto|].
      right. exists i, c, tid. simpl.
      split; [apply list_lookup_insert_eq; by eapply lookup_lt_Some|].
      split; [|done]. intros j c' out Hj Hlook.
      rewrite list_lookup_insert_ne in Hlook by done.
      pose proof (Forall_lookup_1 _ _ _ _ Hall Hlook) as Hcontra. by destruct Hcontra.
    + rewrite (procedure_refuses now u (call_wallet c) db Ho) in Hstep.
      injection Hstep as <- <-.
      assert (i ≠ i0) as Hne by (intros ->; congruence).
      unfold invariant; simpl. split; [by rewrite length_insert|]. split; [done|].
      split; [apply Forall_insert; [done|]; split; simpl; eauto|].
      right. exists i0, c0, tid. simpl.
      split; [by rewrite list_lookup_insert_ne|]. split; [|done].
      intros j c' out Hj Hlook. destruct (decide (i = j)) as [->|Hij].
      * rewrite list_lookup_insert_eq in Hlook by (by eapply lookup_lt_Some).
        congruence.
      * rewrite list_lookup_insert_ne in Hlook by done. by eapply Hothers.
Qed.

Lemma invariant_start calls :
  Forall (asks_six db0 offerId offer) calls →
  invariant db0 offerId offer (length calls) (db0, start calls).
Proof.
  intros Hcalls. unfold invariant, start. simpl.
  split; [by rewrite length_fmap|]. split; [done|]. split.
  - apply Forall_fmap, Forall_forall. intros c Hc.
    rewrite Forall_forall in Hcalls. split; [by apply Hcalls|exact I].
  - left. split; [|done]. simpl. apply Forall_fmap, Forall_forall.
    intros c _. simpl. tauto.
Qed.

Lemma invariant_run n s s' :
  invariant db0 offerId offer n s → rtc sys_step s s' → invariant db0 offerId offer n s'.
Proof. intros Hinv Hrun. induction Hrun; eauto using invariant_step. Qed.

End Reservations.

(** *** Every schedule ends *)

Lemma step_rank now c t db :
  ¬ Concurrent.settled t → (rank (Concurrent.step now c t db).1 < rank t)%nat.
Proof.
  destruct t as [|u o amt|u amt|out]; simpl; [| | |tauto]; intros _.
  - destruct (Concurrent.call_user c); [|simpl; lia].
    destruct (single _); [|simpl; lia]. destruct (_ || _); simpl; lia.
  - destruct (check_reputation u o db) as [[[]|e] db']; simpl; lia.
  - destruct (settle_accept _ _); simpl; lia.
Qed.

Lemma total_rank_insert (tasks : list (Concurrent.Call * Concurrent.Task)) i x y :
  tasks !! i = Some x →
  (total_rank (<[i := y]> tasks) + rank x.2 = total_rank tasks + rank y.2)%nat.
Proof.
  unfold total_rank. revert i. induction tasks as [|z tasks IH]; intros [|i] Hi;
    simplify_eq/=; [lia|]. specialize (IH i Hi). lia.
Qed.

Lemma sys_step_rank s s' :
  Concurrent.sys_step s s' → (total_rank s'.2 < total_rank s.2)%nat.
Proof.
  intros [now db tasks i c t t' db' Hi Hns Hstep]. simpl.
  pose proof (total_rank_insert tasks i (c, t) (c, t') Hi) as Hsum.
  pose proof (step_rank now c t db Hns) as Hlt. rewrite Hstep in Hlt. simpl in *. lia.
Qed.

Lemma fire_step now s i :
  Concurrent.sys_step s (fire now s i) ∨ fire now s i = s.
Proof.
  destruct s as [db tasks]. unfold fire. simpl.
  destruct (tasks !! i) as [[c t]|] eqn:Hi; [|by right].
  destruct (decide (Concurrent.settled t)); [by right|].
  destruct (Concurrent.step now c t db) as [t' db'] eqn:Hstep.
  left. by econstructor.
Qed.

Lemma schedule_run now order s :
  rtc Concurrent.sys_step s (schedule now order s).
Proof.
  unfold schedule. revert s. induction order as [|i order IH]; intros s; simpl; [done|].
  destruct (fire_step now s i) as [Hstep| ->]; [|done].
  by eapply rtc_l.
Qed.

Lemma runs_complete k s :
  (total_rank s.2 ≤ k)%nat →
  ∃ s', rtc Concurrent.sys_step s s' ∧ Forall (λ ct, Concurrent.settled ct.2) s'.2.
Proof.
  revert s. induction k as [|k IH]; intros [db tasks] Hk; simpl in *.
  - exists (db, tasks). split; [done|]. simpl.
    apply Forall_forall. intros [c t] Hin.
    apply list_elem_of_lookup in Hin as [i Hi].
    destruct (decide (Concurrent.settled t)) as [|Hns]; [done|].
    destruct (Concurrent.step 0 c t db) as [t' db'] eqn:Hstep.
    pose proof (sys_step_rank _ _ (Concurrent.sys_step_task 0 db tasks i c t t' db' Hi Hns Hstep)).
    simpl in *. lia.
  - destruct (decide (Forall (λ ct : Concurrent.Call * Concurrent.Task,
                               Concurrent.settled ct.2) tasks)) as [Hall|Hnot].
    + exists (db, tasks). by split.
    + apply not_Forall_Exists in Hnot; [|apply _].
      apply Exists_exists in Hnot as ([c t] & Hin & Hns). simpl in Hns.
      apply list_elem_of_lookup in Hin as [i Hi].
      destruct (Concurrent.step 0 c t db) as [t' db'] eqn:Hstep.
      pose proof (Concurrent.sys_step_task 0 db tasks i c t t' db' Hi Hns Hstep) as Hs.
      pose proof (sys_step_rank _ _ Hs) as Hlt. simpl in Hlt.
      destruct (IH (db', <[i := (c, t')]> tasks)) as (s' & Hrun & Hall); [simpl; lia|].
      exists s'. split; [by eapply rtc_l|done].
Qed.

(** *** No unit is granted twice *)

Lemma check_reputation_same u o o' db0 db :
  p2p_reputation db = p2p_reputation db0 →
  same_thresholds o o' →
  (check_reputation u o' db).1 = (check_reputation u o db0).1.
Proof.
  intros Hrep [Ht Hr]. unfold check_reputation. rewrite Ht, Hr.
  destruct (_ || _); [|done].
  unfold await, select. rewrite Hrep.
  destruct (single _) as [r|]; [|done].
  destruct (_ <? _); [done|]. by destruct (_ <? _).
Qed.

Lemma same_thresholds_trans o1 o2 o3 :
  same_thresholds o1 o2 → same_thresholds o2 o3 → same_thresholds o1 o3.
Proof. unfold same_thresholds. intros [] []. split; congruence. Qed.

Lemma total_insert {A} (w : A → Z) (rows : list A) i x y :
  rows !! i = Some x →
  total w (<[i := y]> rows) = total w rows - w x + w y.
Proof.
  revert i. induction rows as [|z rows IH]; intros [|i] Hi; simplify_eq/=; [lia|].
  rewrite (IH i Hi). lia.
Qed.

(** The procedure grants no more than the offer has left; what it grants it
    takes from the offer, and when it refuses the offer has as many units
    as before. *)
Lemma procedure_conserves now offerId u w a db row :
  single (offer_by_id offerId (p2p_fiat_offers db)) = Some row →
  0 ≤ Offer.remaining_amount row →
  ∃ outcome db' row',
    settle_accept (Server.accept_p2p_offer now offerId u w a) db = (outcome, db') ∧
    p2p_reputation db' = p2p_reputation db ∧
    single (offer_by_id offerId (p2p_fiat_offers db')) = Some row' ∧
    same_thresholds row row' ∧
    0 ≤ Offer.remaining_amount row' ∧
    Offer.remaining_amount row' + match outcome with Ok _ => a | Throw _ => 0 end =
      Offer.remaining_amount row.
Proof.
  intros Hrow Hpos.
  unfold settle_accept, await, rpc, Server.accept_p2p_offer, OfferBook.tryReserve.
  rewrite Hrow.
  destruct (OfferBook.reserve_guard a row) as [e|] eqn:Hguard.
  - simpl. eexists _, db, row. split; [done|]. repeat split; [done|lia|lia].
  - assert (a ≤ Offer.remaining_amount row) as Hle.
    { unfold OfferBook.reserve_guard in Hguard. destruct (negb _); [done|].
      destruct (_ <? a) eqn:E; [done|]. apply Z.ltb_ge in E. lia. }
    destruct (Ledger.lock _ _ a (balances db)) as [ledger'|].
    + simpl. eexists _, _, (OfferBook.reserved a row). split; [done|]. simpl.
      split; [done|]. split.
      { unfold offer_by_id in *. rewrite (filter_update_where_same Offer.id) by done.
        by rewrite single_fmap, Hrow. }
      split; [done|]. lia.
    + simpl. eexists _, _, (OfferBook.restored a (OfferBook.reserved a row)).
      split; [done|]. simpl. split; [done|]. split.
      { unfold offer_by_id, OfferBook.restore in *.
        rewrite !(filter_update_where_same Offer.id) by done.
        by rewrite !single_fmap, Hrow. }
      split; [done|]. lia.
Qed.

Section Conservation.

Import Concurrent.

Variables (db0 : Database) (offerId : string) (offer : P2PFiatOffer).

Lemma total_granted_start calls : total granted (start calls) = 0.
Proof. induction calls as [|c calls IH]; simpl; [done|]. by rewrite IH. Qed.

Lemma conserved_start calls :
  single (offer_by_id offerId (p2p_fiat_offers db0)) = Some offer →
  0 ≤ Offer.remaining_amount offer →
  Forall (asks offerId) calls →
  conserved db0 offerId offer (db0, start calls).
Proof.
  intros Hoffer Hpos Hcalls. unfold conserved. split; [done|]. split.
  - apply Forall_fmap, Forall_forall. intros c Hc.
    rewrite Forall_forall in Hcalls. split; [by apply Hcalls|exact I].
  - exists offer. split; [done|]. split; [done|]. split; [done|].
    cbn [snd]. rewrite total_granted_start. lia.
Qed.

Lemma conserved_step s s' :
  conserved db0 offerId offer s → sys_step s s' → conserved db0 offerId offer s'.
Proof.
  intros (Hrep & Hok & row & Hrow & Hthr & Hpos & Hsum) Hstep.
  destruct Hstep as [now db tasks i c t t' db' Hi Hns Hstep]. simpl in *.
  pose proof (Forall_lookup_1 _ _ _ _ Hok Hi) as [Hcall Hshape]. simpl in *.
  pose proof Hcall as (Hcoffer & a & Hcamount & Ha).
  pose proof (total_insert granted tasks i (c, t) (c, t') Hi) as Htotal.
  destruct t as [|u o amt|u amt|out]; simpl in *; [| | |done].
  - (* the offer is read *)
    rewrite Hcoffer, Hrow, Hcamount in Hstep.
    assert (number_or (Some a) (Offer.remaining_amount row) = a) as Hamount.
    { unfold number_or, truthy_number. by destruct (Z.eqb_spec a 0). }
    rewrite Hamount in Hstep.
    assert (db' = db ∧ granted (c, t') = 0 ∧ in_flight db0 offerId offer (c, t'))
      as (-> & Hg & Hok').
    { destruct (call_user c) as [u|] eqn:Hu; [|by injection Hstep as <- <-].
      destruct (_ || _) eqn:Hgate; injection Hstep as <- <-;
        (split; [done|]); (split; [done|]); (split; [exact Hcall|]); simpl.
      - done.
      - split; [done|]. split; [done|].
        destruct Hthr as [Ht Hr]. unfold check_reputation. by rewrite <- Ht, <- Hr, Hgate. }
    unfold conserved; simpl. split; [done|]. split; [by apply Forall_insert|].
    exists row. change (granted (c, AwaitOffer)) with 0 in Htotal.
    split; [done|]. split; [done|]. split; [done|]. lia.
  - (* the reputation record is read *)
    destruct Hshape as (Hu & Hthr' & Hamt).
    pose proof (check_reputation_same u offer o db0 db Hrep Hthr') as Hsame.
    pose proof (check_reputation_reads u o db) as Hreads.
    pose proof (check_reputation_reads u offer db0) as Hreads0.
    assert (db' = db ∧ granted (c, t') = 0 ∧ in_flight db0 offerId offer (c, t'))
      as (-> & Hg & Hok').
    { destruct (check_reputation u o db) as [[[]|e] db1]; injection Hstep as <- <-;
        simpl in *; subst db1; (split; [done|]); (split; [done|]);
        (split; [exact Hcall|]); simpl; [|done].
      split; [done|]. split; [done|].
      destruct (check_reputation u offer db0) as [r0 db2]. simpl in *. by subst. }
    unfold conserved; simpl. split; [done|]. split; [by apply Forall_insert|].
    exists row. change (granted (c, AwaitReputation u o amt)) with 0 in Htotal.
    split; [done|]. split; [done|]. split; [done|]. lia.
  - (* the procedure runs *)
    destruct Hshape as (Hu & Hamt & Hgate). rewrite Hcoffer in Hstep.
    destruct (procedure_conserves now offerId u (call_wallet c) amt db row Hrow Hpos)
      as (outcome & db1 & row' & Hrun & Hrep1 & Hrow' & Hthr' & Hpos' & Hsum').
    rewrite Hrun in Hstep. injection Hstep as <- <-.
    unfold conserved; simpl. split; [congruence|].
    split; [apply Forall_insert; [done|]; by split|].
    exists row'. split; [done|]. split; [by eapply same_thresholds_trans|]. split; [done|].
    assert (granted (c, Settled outcome) = match outcome with Ok _ => amt | Throw _ => 0 end)
      as Hg.
    { unfold granted. simpl. destruct outcome; [|done].
      rewrite Hcamount in *. injection Hamt as <-.
      unfold number_or, truthy_number. by destruct (Z.eqb_spec a 0). }
    change (granted (c, AwaitProcedure u amt)) with 0 in Htotal. lia.
Qed.

Lemma conserved_run s s' :
  conserved db0 offerId offer s → rtc sys_step s s' → conserved db0 offerId offer s'.
Proof. intros Hinv Hrun. induction Hrun; eauto using conserved_step. Qed.

(** A request that does not settle the call writes nothing; the request
    that settles it has the outcome and the effect of the whole of
    [acceptFiatOffer], run on the database of that moment. *)
Lemma settles_as_acceptFiatOffer now db tasks i c t t' db' :
  conserved db0 offerId offer (db, tasks) →
  tasks !! i = Some (c, t) → ¬ settled t →
  step now c t db = (t', db') →
  match t' with
  | Settled outcome =>
      acceptFiatOffer (Server.accept_p2p_offer now) (call_user c) (call_offer c)
        (call_wallet c) (call_amount c) db = (outcome, db')
  | _ => db' = db
  end.
Proof.
  intros (Hrep & Hok & row & Hrow & Hthr & Hpos & Hsum) Hi Hns Hstep. simpl in *.
  pose proof (Forall_lookup_1 _ _ _ _ Hok Hi) as [Hcall Hshape]. simpl in *.
  pose proof Hcall as (Hcoffer & a & Hcamount & Ha).
  assert (number_or (Some a) (Offer.remaining_amount row) = a) as Hamount.
  { unfold number_or, truthy_number. by destruct (Z.eqb_spec a 0). }
  destruct t as [|u o amt|u amt|out]; simpl in *; [| | |done].
  - destruct (call_user c) as [u|] eqn:Hu; [|by injection Hstep as <- <-].
    rewrite Hcoffer, Hrow in Hstep.
    by destruct (_ || _); injection Hstep as <- <-.
  - destruct Hshape as (Hu & Hthr' & Hamt).
    pose proof (check_reputation_reads u o db) as Hreads.
    assert (check_reputation u row db = check_reputation u o db) as Hsame.
    { apply injective_projections.
      - rewrite (check_reputation_same u offer row db0 db Hrep Hthr).
        by rewrite (check_reputation_same u offer o db0 db Hrep Hthr').
      - by rewrite !check_reputation_reads. }
    destruct (check_reputation u o db) as [[[]|e] db1] eqn:Hcheck;
      injection Hstep as <- <-; simpl in Hreads; subst db1; [done|].
    unfold acceptFiatOffer. rewrite Hu, Hcoffer. unfold await at 1, select.
    rewrite Hrow. unfold await at 1. by rewrite Hsame.
  - destruct Hshape as (Hu & Hamt & Hgate).
    destruct (settle_accept _ db) as [outcome db1] eqn:Hrun. injection Hstep as <- <-.
    unfold acceptFiatOffer. rewrite Hu, Hcoffer. unfold await at 1, select.
    rewrite Hrow. unfold await at 1.
    assert (check_reputation u row db = (Ok tt, db)) as ->.
    { by apply (check_reputation_ext u offer row db0 db). }
    rewrite Hcamount in *. injection Hamt as <-. unfold number_or. rewrite Hamount.
    by rewrite Hcoffer in Hrun.
Qed.

End Conservation.

(** C6. Calls of [acceptFiatOffer] on one offer, each naming the amount it
    asks for, run concurrently: their database requests are served one at a
    time in any order, the accept procedure being one transaction. The calls
    can always run to the end. At every moment of every such run: a request
    that does not settle its call writes nothing, and the request that
    settles it has the outcome and the effect of [acceptFiatOffer] itself
    run at once on the database of that moment; the units left on the offer
    are never negative, and together with the amounts of the calls granted
    so far they are the units the offer had at the start, so that no unit is
    granted twice. In the case of the specification, an open offer with 10
    units left, funded by its maker, and calls asking for 6 units each by
    users who meet the offer's requirements: whenever all have settled
    exactly one has been granted a trade, every other one was rejected with
    AmountExceedsRemaining, and the offer has 4 units left. *)
Theorem concurrent_accepts_reserve_once
    (db0 : Database) (offerId : string) (offer : P2PFiatOffer)
    (calls : list Concurrent.Call) :
  single (offer_by_id offerId (p2p_fiat_offers db0)) = Some offer →
  0 ≤ Offer.remaining_amount offer →
  Forall (asks offerId) calls →
  (∃ s, rtc Concurrent.sys_step (db0, Concurrent.start calls) s ∧
        Forall (λ ct, Concurrent.settled ct.2) s.2) ∧
  ∀ db tasks,
    rtc Concurrent.sys_step (db0, Concurrent.start calls) (db, tasks) →
    (∀ now i c t t' db',
       tasks !! i = Some (c, t) → ¬ Concurrent.settled t →
       Concurrent.step now c t db = (t', db') →
       match t' with
       | Concurrent.Settled outcome =>
           acceptFiatOffer (Server.accept_p2p_offer now) (Concurrent.call_user c)
             (Concurrent.call_offer c) (Concurrent.call_wallet c)
             (Concurrent.call_amount c) db = (outcome, db')
       | _ => db' = db
       end) ∧
    (∃ row,
       single (offer_by_id offerId (p2p_fiat_offers db)) = Some row ∧
       0 ≤ Offer.remaining_amount row ∧
       Offer.remaining_amount row + total granted tasks = Offer.remaining_amount offer) ∧
    (Offer.status offer = OfferOpen →
     Offer.remaining_amount offer = 10 →
     (∀ m, Offer.min_order_amount offer = Some m → m ≤ 6) →
     (∀ m, Offer.max_order_amount offer = Some m → 6 ≤ m) →
     6 ≤ available (Ledger.balance_of (balances db0) (Offer.seller_id offer)
                      (Offer.token offer)) →
     calls ≠ [] →
     Forall (asks_six db0 offerId offer) calls →
     Forall (λ ct, Concurrent.settled ct.2) tasks →
     ∃ i c tid,
       tasks !! i = Some (c, Concurrent.Settled (Ok (Some tid))) ∧
       (∀ j c' t, j ≠ i → tasks !! j = Some (c', t) →
                  t = Concurrent.Settled (Throw (JsError "AmountExceedsRemaining"))) ∧
       Offer.remaining_amount <$> single (offer_by_id offerId (p2p_fiat_offers db)) = Some 4).
Proof.
  intros Hoffer Hpos Hasks.
  split; [by eapply runs_complete|].
  intros db tasks Hrun.
  pose proof (conserved_run db0 offerId offer _ _
                (conserved_start db0 offerId offer calls Hoffer Hpos Hasks) Hrun) as Hcons.
  split; [|split].
  - intros now i c t t' db' Hi Hns Hstep.
    by apply (settles_as_acceptFiatOffer db0 offerId offer now db tasks i c t t' db').
  - destruct Hcons as (_ & _ & row & Hrow & _ & Hrow_pos & Hsum). by exists row.
  - intros Hopen Hremaining Hmin Hmax Hfunds Hcalls Hsix Hall.
    pose proof (invariant_run db0 offerId offer Hoffer Hopen Hremaining Hmin Hmax Hfunds
                  _ _ _ (invariant_start db0 offerId offer calls Hsix) Hrun)
      as (Hlen & _ & _ & Hphase).
    simpl in *.
    destruct Hphase as [(Hnone & _ & _)|(i & c & tid & Hi & Hothers & Ho)]; simpl in *.
    + destruct tasks as [|ct tasks]; [by destruct calls|].
      apply Forall_cons in Hall as [Hs _]. apply Forall_cons in Hnone as [Hn _]. done.
    + exists i, c, tid. split; [done|]. split.
      * intros j c' t Hj Hlook.
        pose proof (Forall_lookup_1 _ _ _ _ Hall Hlook) as Hs. simpl in Hs.
        destruct t as [| | |out]; try done.
        by rewrite (Hothers j c' out Hj Hlook).
      * rewrite Ho. simpl. by rewrite Hremaining.
Qed.

(** ** The properties on the scenarios *)



Lemma acceptFiatOffer_reputation_gate_witness :
  acceptFiatOffer (Server.accept_p2p_offer 0) (Some "newcomer") "offer-5" "5New" (Some 30)
    Scenario.strict =
  (Throw (JsError "Seller requires experienced buyers"), Scenario.strict) ∧
  ∃ message,
    acceptFiatOffer (Server.accept_p2p_offer 0) (Some "taker") "offer-5" "5Taker" (Some 30)
      Scenario.strict =
    (Throw (JsError message), Scenario.strict).
Proof.
  split.
  - apply (acceptFiatOffer_reputation_gate (Server.accept_p2p_offer 0) "newcomer" "offer-5"
             "5New" (Some 30) Scenario.strict Scenario.strict_offer);
      [reflexivity | simpl; lia | simpl; lia | left; simpl; lia | reflexivity].
  - apply (acceptFiatOffer_reputation_gate (Server.accept_p2p_offer 0) "taker" "offer-5"
             "5Taker" (Some 30) Scenario.strict Scenario.strict_offer)
      with (reputation := Scenario.taker_reputation);
      [reflexivity | simpl; lia | simpl; lia | left; simpl; lia | reflexivity
      | left; simpl; lia].
Defined.

Lemma acceptFiatOffer_default_amount_witness :
  acceptFiatOffer (Server.accept_p2p_offer 0) (Some "taker") "offer-1" "5Taker" None
    Scenario.pending =
  settle_accept (Server.accept_p2p_offer 0 "offer-1" "taker" "5Taker" 70) Scenario.pending.
Proof.
  apply (acceptFiatOffer_default_amount (Server.accept_p2p_offer 0) "taker" "offer-1"
           "5Taker" Scenario.pending Scenario.offer_1); reflexivity.
Defined.

Lemma acceptFiatOffer_zero_amount_witness :
  acceptFiatOffer (Server.accept_p2p_offer 0) (Some "taker") "offer-1" "5Taker" (Some 0)
    Scenario.pending =
  settle_accept (Server.accept_p2p_offer 0 "offer-1" "taker" "5Taker" 70) Scenario.pending.
Proof.
  apply (proj2 (acceptFiatOffer_zero_amount (Server.accept_p2p_offer 0) (Some "taker")
                  "offer-1" "5Taker" Scenario.pending) "taker" Scenario.offer_1);
    reflexivity.
Defined.

Lemma validatePaymentDetails_valid_minLength_pattern_witness :
  validatePaymentDetails Scenario.prefix_test Scenario.details Scenario.rules =
    Some Scenario.verdict ∧
  (valid Scenario.verdict = true ↔ errors Scenario.verdict = ∅) ∧
  (is_Some (errors Scenario.verdict !! "iban") ∧ valid Scenario.verdict = false) ∧
  validatePaymentDetails Scenario.prefix_test Scenario.details
    (<["iban" := set_pattern None Scenario.iban_rule]> Scenario.rules) =
    Some Scenario.verdict.
Proof.
  assert (validatePaymentDetails Scenario.prefix_test Scenario.details Scenario.rules =
          Some Scenario.verdict) as Hrun by (vm_compute; reflexivity).
  destruct (validatePaymentDetails_valid_minLength_pattern Scenario.prefix_test
              Scenario.details Scenario.rules Scenario.verdict Hrun)
    as (Hvalid & Hmin & Hpattern).
  split; [exact Hrun|]. split; [exact Hvalid|]. split.
  - apply (Hmin "iban" Scenario.iban_rule 5); [vm_compute; reflexivity|reflexivity|reflexivity|lia].
  - apply (Hpattern "iban" Scenario.iban_rule None); [vm_compute; reflexivity|reflexivity].
Defined.

Lemma concurrent_accepts_reserve_once_witness :
  (∃ row,
     single (offer_by_id "offer-10" (p2p_fiat_offers Scenario.interleaved.1)) = Some row ∧
     0 ≤ Offer.remaining_amount row ∧
     Offer.remaining_amount row + total granted Scenario.interleaved.2 = 10) ∧
  ∃ i c tid,
    Scenario.interleaved.2 !! i = Some (c, Concurrent.Settled (Ok (Some tid))) ∧
    (∀ j c' t, j ≠ i → Scenario.interleaved.2 !! j = Some (c', t) →
               t = Concurrent.Settled (Throw (JsError "AmountExceedsRemaining"))) ∧
    Offer.remaining_amount <$>
      single (offer_by_id "offer-10" (p2p_fiat_offers Scenario.interleaved.1)) = Some 4.
Proof.
  assert (Forall (asks "offer-10") Scenario.three_calls) as Hasks.
  { repeat (constructor; [split; [reflexivity|exists 6; split; [reflexivity|lia]]|]).
    constructor. }
  destruct (proj2 (concurrent_accepts_reserve_once Scenario.contested "offer-10"
                     Scenario.last_ten Scenario.three_calls eq_refl
                     ltac:(simpl; lia) Hasks)
              Scenario.interleaved.1 Scenario.interleaved.2) as (_ & Hleft & Hcase).
  - apply (schedule_run 7000 [0; 1; 2; 2; 1; 2; 0; 0; 1]%nat
             (Scenario.contested, Concurrent.start Scenario.three_calls)).
  - split; [exact Hleft|].
    apply Hcase;
      [ reflexivity | reflexivity
      | simpl; intros m [= <-]; lia
      | simpl; intros m [= <-]; lia
      | vm_compute; discriminate
      | discriminate
      | repeat constructor; simpl; eauto
      | vm_compute; repeat constructor ].
Defined.

(* ================================================================== *)
(** * Further properties of the library *)
(* ================================================================== *)

(** ** Listings *)

Section Listing.

Context {A : Type} (R : relation A) `{∀ x y, Decision (R x y)}.
Context (P : A → Prop) `{∀ x, Decision (P x)}.

Lemma sorted_filter_perm (rows : list A) :
  merge_sort R (filter P rows) ≡ₚ filter P rows.
Proof. apply merge_sort_Permutation. Qed.

Lemma sorted_filter_Forall (rows : list A) :
  Forall P (merge_sort R (filter P rows)).
Proof.
  rewrite sorted_filter_perm. apply Forall_forall. intros x Hx.
  by apply list_elem_of_filter in Hx as [? _].
Qed.

End Listing.

#[global] Instance newer_trade_total : Total newer_trade.
Proof. intros a b. unfold newer_trade. lia. Qed.
#[global] Instance newer_trade_trans : Transitive newer_trade.
Proof. intros a b c. unfold newer_trade. lia. Qed.
#[global] Instance display_le_total : Total display_le.
Proof. intros a b. unfold display_le. lia. Qed.
#[global] Instance display_le_trans : Transitive display_le.
Proof. intros a b c. unfold display_le. lia. Qed.
#[global] Instance newer_request_total : Total newer_request.
Proof. intros a b. unfold newer_request. lia. Qed.
#[global] Instance newer_request_trans : Transitive newer_request.
Proof. intros a b c. unfold newer_request. lia. Qed.

(** X1. [getUserTrades] returns the trades of the table in which the user is
    the seller or the buyer, each as often as it is in the table and no
    other, the most recently created first. *)
Theorem getUserTrades_involved_newest_first (userId : string) (db : Database) :
  getUserTrades userId db ≡ₚ filter (involves userId) (p2p_fiat_trades db) ∧
  Forall (involves userId) (getUserTrades userId db) ∧
  StronglySorted newer_trade (getUserTrades userId db).
Proof.
  unfold getUserTrades. split; [apply sorted_filter_perm|].
  split; [apply sorted_filter_Forall|].
  apply StronglySorted_merge_sort; apply _.
Qed.

(** X2. [getPaymentMethods] returns the active methods of the currency asked
    for, each row once, in display order. *)
Theorem getPaymentMethods_active_in_order (currency : FiatCurrency)
    (payment_methods : list PaymentMethod.t) :
  (∀ m, m ∈ getPaymentMethods currency payment_methods ↔
        m ∈ payment_methods ∧ PaymentMethod.currency m = currency ∧
        PaymentMethod.is_active m = true) ∧
  length (getPaymentMethods currency payment_methods) =
    length (filter (λ m, PaymentMethod.currency m = currency ∧
                         PaymentMethod.is_active m = true) payment_methods) ∧
  StronglySorted display_le (getPaymentMethods currency payment_methods).
Proof.
  unfold getPaymentMethods. split; [|split].
  - intros m. rewrite merge_sort_Permutation, !list_elem_of_filter. tauto.
  - rewrite merge_sort_Permutation. f_equal.
    induction payment_methods as [|m l IH]; [done|].
    destruct (decide (PaymentMethod.currency m = currency)) as [Hc|Hc].
    + rewrite (filter_cons_True (λ m, PaymentMethod.currency m = currency)) by done.
      destruct (decide (PaymentMethod.is_active m = true)) as [Ha|Ha].
      * rewrite !filter_cons_True by done. by rewrite IH.
      * rewrite !filter_cons_False by tauto. done.
    + rewrite (filter_cons_False (λ m, PaymentMethod.currency m = currency)) by done.
      rewrite filter_cons_False by tauto. done.
  - apply StronglySorted_merge_sort; apply _.
Qed.

(** X3. [getDepositWithdrawHistory] returns at most 50 requests, the most
    recent first, and every request it leaves out is no more recent than any
    it returns. *)
Theorem getDepositWithdrawHistory_latest_fifty (rows : list Request.t) :
  length (getDepositWithdrawHistory rows) = Nat.min 50 (length rows) ∧
  StronglySorted newer_request (getDepositWithdrawHistory rows) ∧
  ∃ older,
    getDepositWithdrawHistory rows ++ older ≡ₚ rows ∧
    ∀ a b, a ∈ getDepositWithdrawHistory rows → b ∈ older →
           Request.created_at b ≤ Request.created_at a.
Proof.
  unfold getDepositWithdrawHistory.
  pose proof (StronglySorted_merge_sort newer_request rows) as Hsorted.
  rewrite <- (take_drop 50 (merge_sort newer_request rows)) in Hsorted.
  split; [|split].
  - rewrite length_take. f_equal. apply Permutation_length, merge_sort_Permutation.
  - by eapply StronglySorted_app_1_l.
  - exists (drop 50 (merge_sort newer_request rows)). split.
    + rewrite take_drop. apply merge_sort_Permutation.
    + intros a b Ha Hb. by eapply (StronglySorted_app_1_elem_of newer_request).
Qed.

(** ** The platform wallet *)

Lemma string_or_truthy (a : option string) (b : string) :
  b ≠ "" → string_or a b ≠ "" ∧ (string_or a b = b ∨ a = Some (string_or a b)).
Proof.
  intros Hb. unfold string_or, truthy_string. destruct a as [s|]; [|by split; [|left]].
  destruct (bool_decide (s = "")) eqn:E; simpl.
  - by split; [|left].
  - apply bool_decide_eq_false in E. by split; [|right].
Qed.

(** X4. [getPlatformWalletAddress] never answers an empty address: it
    answers the configured value when exactly one row holds the key and its
    value is not empty, and the default address in every other case. *)
Theorem getPlatformWalletAddress_never_empty (p2p_config : list Config.t) :
  getPlatformWalletAddress p2p_config ≠ "" ∧
  (getPlatformWalletAddress p2p_config = DEFAULT_ADDRESS ∨
   ∃ row, filter (λ r, Config.key r = "platform_escrow_wallet") p2p_config = [row] ∧
          Config.value row = Some (getPlatformWalletAddress p2p_config)) ∧
  ∀ row v,
    filter (λ r, Config.key r = "platform_escrow_wallet") p2p_config = [row] →
    Config.value row = Some v → v ≠ "" →
    getPlatformWalletAddress p2p_config = v.
Proof.
  unfold getPlatformWalletAddress. split; [|split].
  - destruct (single _) as [row|]; [|done].
    by apply string_or_truthy.
  - destruct (filter _ p2p_config) as [|row [|]] eqn:Hf; simpl; try by left.
    destruct (string_or_truthy (Config.value row) DEFAULT_ADDRESS) as [_ [?|?]];
      [done|by left|right; eauto].
  - intros row v -> Hv Hne. simpl. rewrite Hv. unfold string_or, truthy_string.
    by rewrite bool_decide_false.
Qed.

(** ** Internal balances *)

(** X5. [getInternalBalance] answers the first balance of the user in the
    token asked for: a row of [getInternalBalances] with that token, and
    [null] exactly when no row has it, in particular when nobody is signed
    in or the procedure fails. *)
Theorem getInternalBalance_finds_token
    (get_user_internal_balance : string → Database → option (list InternalBalance.t))
    (user : option string) (token : CryptoToken) (db : Database) :
  (∀ b, getInternalBalance get_user_internal_balance user token db = Some b →
        b ∈ getInternalBalances get_user_internal_balance user db ∧
        InternalBalance.token b = token) ∧
  (getInternalBalance get_user_internal_balance user token db = None ↔
   ∀ b, b ∈ getInternalBalances get_user_internal_balance user db →
        InternalBalance.token b ≠ token) ∧
  (user = None ∨ (∃ u, user = Some u ∧ get_user_internal_balance u db = None) →
   getInternalBalance get_user_internal_balance user token db = None).
Proof.
  unfold getInternalBalance.
  set (l := getInternalBalances get_user_internal_balance user db).
  assert (∀ l' : list InternalBalance.t,
    (∀ b, List.find (λ b, bool_decide (InternalBalance.token b = token)) l' = Some b →
          b ∈ l' ∧ InternalBalance.token b = token) ∧
    (List.find (λ b, bool_decide (InternalBalance.token b = token)) l' = None ↔
     ∀ b, b ∈ l' → InternalBalance.token b ≠ token)) as Hfind.
  { induction l' as [|x l' [IH1 IH2]]; simpl.
    - split; [done|]. split; [|done]. intros _ b Hb. by apply elem_of_nil in Hb.
    - destruct (bool_decide (InternalBalance.token x = token)) eqn:E.
      + apply bool_decide_eq_true in E. split.
        * intros b [= <-]. split; [left|done].
        * split; [done|]. intros Hall. destruct (Hall x); [left|done].
      + apply bool_decide_eq_false in E. split.
        * intros b Hb. destruct (IH1 b Hb). split; [by right|done].
        * rewrite IH2. split.
          -- intros Hall b Hb. apply elem_of_cons in Hb as [->|Hb]; auto.
          -- intros Hall b Hb. apply Hall. by right. }
  split; [apply Hfind|]. split; [apply Hfind|].
  intros [->|(u & -> & Hnone)]; subst l; simpl; [done|]. by rewrite Hnone.
Qed.

(** ** Withdrawals *)

(** X6. [requestWithdraw] rejects a call with no signed-in user, an amount
    that is not positive or an address shorter than 40 characters (the empty
    one included) before anything is sent: the database is unchanged whatever
    the procedure does. The amount is checked before the address. A call
    that passes reaches the procedure with the arguments it was given. *)
Theorem requestWithdraw_validates_first
    (request_withdraw : string → CryptoToken → Z → string → Database → WithdrawResult * Database)
    (user : option string) (token : CryptoToken) (amount : Z) (walletAddress : string)
    (db : Database) :
  (user = None ∨ amount ≤ 0 ∨ (String.length walletAddress < 40)%nat →
   ∃ message,
     requestWithdraw request_withdraw user token amount walletAddress db =
     (Throw (JsError message), db)) ∧
  (∀ u, user = Some u → amount ≤ 0 →
     requestWithdraw request_withdraw user token amount walletAddress db =
     (Throw (JsError "Amount must be greater than 0"), db)) ∧
  (∀ u, user = Some u → 0 < amount → (40 ≤ String.length walletAddress)%nat →
     requestWithdraw request_withdraw user token amount walletAddress db =
     settle_withdraw (request_withdraw u token amount walletAddress db)).
Proof.
  unfold requestWithdraw, throw, string_length.
  split; [|split].
  - intros Hbad. destruct user as [u|]; [|by eexists].
    destruct (amount <=? 0) eqn:Ea; [by eexists|]. apply Z.leb_gt in Ea.
    destruct (negb (truthy_string walletAddress) || _) eqn:Ew; [by eexists|].
    apply orb_false_iff in Ew as [_ Ew]. apply Z.ltb_ge in Ew.
    destruct Hbad as [|[|]]; [done|lia|lia].
  - intros u -> Ha. by rewrite (proj2 (Z.leb_le amount 0) Ha).
  - intros u -> Ha Hw. rewrite (proj2 (Z.leb_gt amount 0) Ha).
    assert (truthy_string walletAddress = true) as ->.
    { unfold truthy_string. rewrite bool_decide_false; [done|].
      intros ->. simpl in Hw. lia. }
    simpl. by rewrite (proj2 (Z.ltb_ge _ 40)) by lia.
Qed.

(** ** Accepting an offer *)

Lemma check_reputation_decides user offer db :
  (meets_thresholds offer (getUserReputation user db) ∧
   check_reputation user offer db = (Ok tt, db)) ∨
  (¬ meets_thresholds offer (getUserReputation user db) ∧
   ∃ message, check_reputation user offer db = (Throw (JsError message), db)).
Proof.
  unfold check_reputation, meets_thresholds, getUserReputation.
  destruct (_ || _) eqn:Hgate.
  - apply orb_true_iff in Hgate. rewrite !Z.ltb_lt in Hgate.
    unfold await, select, throw, resolve.
    destruct (single _) as [r|].
    + destruct (completed_trades r <? Offer.min_buyer_completed_trades offer) eqn:Hc.
      { apply Z.ltb_lt in Hc. right. split; [|by eexists].
        intros [?|(r' & [= <-] & ? & ?)]; lia. }
      destruct (reputation_score r <? Offer.min_buyer_reputation offer) eqn:Hs.
      { apply Z.ltb_lt in Hs. right. split; [|by eexists].
        intros [?|(r' & [= <-] & ? & ?)]; lia. }
      apply Z.ltb_ge in Hc. apply Z.ltb_ge in Hs.
      left. split; [|done]. right. eauto.
    + right. split; [|by eexists]. intros [?|(r' & ? & _)]; [lia|done].
  - apply orb_false_iff in Hgate as [H1 H2]. apply Z.ltb_ge in H1, H2.
    left. split; [by left|done].
Qed.

(** X7. The offer is read. [acceptFiatOffer] reaches the accept procedure
    exactly when the offer sets no positive threshold or [getUserReputation]
    gives the taker a record with at least the completed trades and the
    score the offer asks for, and it then asks for the amount given (the
    offer's remaining amount when none or 0 is given). Otherwise it is
    rejected and the database is unchanged. *)
Theorem acceptFiatOffer_reaches_procedure_iff
    (accept_p2p_offer : string → string → string → Z → Procedure)
    (user offerId buyerWallet : string) (amount : option Z)
    (db : Database) (offer : P2PFiatOffer) :
  single (offer_by_id offerId (p2p_fiat_offers db)) = Some offer →
  (meets_thresholds offer (getUserReputation user db) →
   acceptFiatOffer accept_p2p_offer (Some user) offerId buyerWallet amount db =
   settle_accept
     (accept_p2p_offer offerId user buyerWallet
        (number_or amount (Offer.remaining_amount offer))) db) ∧
  (¬ meets_thresholds offer (getUserReputation user db) →
   ∃ message,
     acceptFiatOffer accept_p2p_offer (Some user) offerId buyerWallet amount db =
     (Throw (JsError message), db)).
Proof.
  intros Hoffer.
  destruct (check_reputation_decides user offer db) as [[Hm Hc]|[Hm [msg Hc]]].
  - split; [|done]. intros _. by apply acceptFiatOffer_reaches_procedure.
  - split; [done|]. intros _. exists msg. by eapply acceptFiatOffer_gate_rejects.
Qed.

(** X8. Without a signed-in user, or when the offer id selects no row (or
    more than one), [acceptFiatOffer] is rejected before the reputation is
    read and before the procedure is called: the database is unchanged
    whatever the procedure does. *)
Theorem acceptFiatOffer_needs_user_and_offer
    (accept_p2p_offer : string → string → string → Z → Procedure)
    (user : option string) (offerId buyerWallet : string) (amount : option Z)
    (db : Database) :
  (user = None →
   acceptFiatOffer accept_p2p_offer user offerId buyerWallet amount db =
   (Throw (JsError "Not authenticated"), db)) ∧
  (is_Some user → length (offer_by_id offerId (p2p_fiat_offers db)) ≠ 1%nat →
   acceptFiatOffer accept_p2p_offer user offerId buyerWallet amount db =
   (Throw (JsError "Offer not found"), db)).
Proof.
  split; [by intros ->|]. intros [u ->] Hlen.
  unfold acceptFiatOffer, await, select.
  by destruct (offer_by_id offerId (p2p_fiat_offers db)) as [|o [|]].
Qed.

(** ** Confirming a payment *)

(** X9. Unless the caller is the seller of a trade that is in
    [payment_sent], [confirmPaymentReceived] is rejected and the database is
    unchanged whatever the release procedure does: it is not called. Who is
    not the seller is told so whatever the status of the trade. *)
Theorem confirmPaymentReceived_only_seller_of_paid_trade
    (release_escrow_internal : string → string → CryptoToken → Z → string → string → Procedure)
    (now : Timestamp) (user : option string) (tradeId : string) (db : Database) :
  (¬ (∃ trade, getTradeById tradeId db = Some trade ∧
               user = Some (Trade.seller_id trade) ∧
               Trade.status trade = TradePaymentSent) →
   ∃ e, confirmPaymentReceived release_escrow_internal now user tradeId db = (Throw e, db)) ∧
  (∀ trade u, getTradeById tradeId db = Some trade → user = Some u →
              u ≠ Trade.seller_id trade →
   confirmPaymentReceived release_escrow_internal now user tradeId db =
   (Throw (JsError "Only seller can confirm"), db)).
Proof.
  unfold confirmPaymentReceived, getTradeById. split.
  - intros Hnot. destruct user as [u|]; [|by eexists].
    unfold await at 1, select.
    destruct (single (trade_by_id tradeId (p2p_fiat_trades db))) as [trade|]; simpl;
      [|by eexists].
    destruct (bool_decide (Trade.seller_id trade = u)) eqn:Hs; simpl; [|by eexists].
    apply bool_decide_eq_true in Hs.
    destruct (bool_decide (Trade.status trade = TradePaymentSent)) eqn:Hst; simpl;
      [|by eexists].
    apply bool_decide_eq_true in Hst. destruct Hnot. exists trade. by subst.
  - intros trade u Ht -> Hne. unfold await at 1, select. rewrite Ht. simpl.
    by rewrite bool_decide_false.
Qed.

(** X10. A confirmation that fails leaves the trade as it was: when the
    release procedure does not write to the trades itself, every rejection of
    [confirmPaymentReceived], before or after the call of the procedure,
    leaves the table of trades unchanged. *)
Theorem confirmPaymentReceived_failure_keeps_trades
    (release_escrow_internal : string → string → CryptoToken → Z → string → string → Procedure)
    (now : Timestamp) (user : option string) (tradeId : string) (db db' : Database)
    (e : Error) :
  (∀ from to token amount kind reference d,
     p2p_fiat_trades (release_escrow_internal from to token amount kind reference d).2 =
     p2p_fiat_trades d) →
  confirmPaymentReceived release_escrow_internal now user tradeId db = (Throw e, db') →
  p2p_fiat_trades db' = p2p_fiat_trades db.
Proof.
  intros Hkeeps. unfold confirmPaymentReceived, throw. intros H.
  destruct user as [u|]; [|by simplify_eq].
  unfold await at 1, select in H.
  destruct (single (trade_by_id tradeId (p2p_fiat_trades db))) as [trade|]; simpl in H;
    [|by simplify_eq].
  destruct (bool_decide (Trade.seller_id trade = u)); simpl in H; [|by simplify_eq].
  destruct (bool_decide (Trade.status trade = TradePaymentSent)); simpl in H;
    [|by simplify_eq].
  destruct (single (offer_by_id _ _)) as [offer|]; [|by simplify_eq].
  unfold await at 1, rpc in H.
  specialize (Hkeeps (Trade.seller_id trade) (Trade.buyer_id trade) (Offer.token offer)
                (Trade.crypto_amount trade) "trade" tradeId db).
  destruct (release_escrow_internal _ _ _ _ _ _ db) as [result db1]. simpl in *.
  unfold await, check_response, throw, resolve, execute in H.
  destruct result as [message|response]; [by simplify_eq|].
  destruct (success response); simpl in H; by simplify_eq.
Qed.

(** ** Cancelling a trade *)


(** X12. A successful [cancelTrade] writes to nothing but the trade named
    and the offer of that trade: the trades with another id, the offers with
    another id, the reputations and the ledger are as before, and no row is
    added or removed. *)
Theorem cancelTrade_touches_trade_and_offer_only
    (user : option string) (tradeId : string) (reason : option string) (db db' : Database) :
  cancelTrade user tradeId reason db = (Ok tt, db') →
  ∃ trade,
    getTradeById tradeId db = Some trade ∧
    (∀ k, k ≠ tradeId →
          trade_by_id k (p2p_fiat_trades db') = trade_by_id k (p2p_fiat_trades db)) ∧
    (∀ k, k ≠ Trade.offer_id trade →
          offer_by_id k (p2p_fiat_offers db') = offer_by_id k (p2p_fiat_offers db)) ∧
    length (p2p_fiat_trades db') = length (p2p_fiat_trades db) ∧
    length (p2p_fiat_offers db') = length (p2p_fiat_offers db) ∧
    p2p_reputation db' = p2p_reputation db ∧
    balances db' = balances db.
Proof.
  unfold cancelTrade, getTradeById. intros H. destruct user as [u|]; [|done].
  unfold await at 1, select in H.
  destruct (single (trade_by_id tradeId (p2p_fiat_trades db))) as [trade|] eqn:Htrade;
    [|done].
  simpl in H. destruct (bool_decide (Trade.status trade = TradePending)); [|done].
  simpl in H. unfold await, execute, select, resolve in H. simpl in H.
  exists trade. split; [done|].
  destruct (single (offer_by_id _ _)) as [offer|]; injection H as <-; simpl;
    unfold trade_by_id, offer_by_id, update_where;
    repeat split; rewrite ?length_fmap; try done;
    intros k Hk;
    try (by apply (filter_update_where_other Trade.id));
    by apply (filter_update_where_other Offer.id).
Qed.

(** ** Marking a payment as sent *)

Lemma update_where_no_row {A K : Type} `{EqDecision K} (key : A → K) (k : K)
    (patch : A → A) (rows : list A) :
  filter (λ r, key r = k) rows = [] →
  update_where (λ r, key r = k) patch rows = rows.
Proof.
  unfold update_where. induction rows as [|r rows IH]; [done|].
  rewrite fmap_cons. destruct (decide (key r = k)) as [Hr|Hr].
  - by rewrite filter_cons_True.
  - rewrite filter_cons_False by done. intros H. by rewrite IH.
Qed.

(** X13. Once a trade is marked as paid it cannot be cancelled: after
    [markPaymentSent] has resolved on a trade, [cancelTrade] of that trade by
    any signed-in user is rejected ("Cannot cancel at this stage") and
    changes nothing. *)
Theorem cancelTrade_after_markPaymentSent
    (answer : Answer) (now : Timestamp) (tradeId : string) (proof : option string)
    (db : Database) (trade : P2PFiatTrade) (user : string) (reason : option string) :
  getTradeById tradeId db = Some trade →
  (markPaymentSent answer now tradeId proof db).1 = Ok tt →
  cancelTrade (Some user) tradeId reason (markPaymentSent answer now tradeId proof db).2 =
  (Throw (JsError "Cannot cancel at this stage"),
   (markPaymentSent answer now tradeId proof db).2).
Proof.
  intros Htrade Hresolved. destruct answer as [|message]; [|done].
  destruct (markPaymentSent_unguarded now tradeId proof db trade Htrade)
    as (db1 & Hmark & Hrow).
  rewrite Hmark. simpl. unfold cancelTrade, await at 1, select. by rewrite Hrow.
Qed.

(** X14. [markPaymentSent] rejects exactly when its update fails, with the
    error of the update, and then the database is as it was. When the update
    is served it resolves and has written to nothing but the trades that
    have the id it is given: the trades with another id, the offers, the
    reputations and the ledger are as before; when no trade has the id it
    resolves all the same, and the database is unchanged. *)
Theorem markPaymentSent_touches_named_trade_only
    (answer : Answer) (now : Timestamp) (tradeId : string) (proof : option string)
    (db : Database) :
  (markPaymentSent answer now tradeId proof db).1 =
    match answer with
    | Written => Ok tt
    | Declined message => Throw (PostgrestError message)
    end ∧
  (∀ message, answer = Declined message →
              (markPaymentSent answer now tradeId proof db).2 = db) ∧
  (∀ k, k ≠ tradeId →
        trade_by_id k (p2p_fiat_trades (markPaymentSent answer now tradeId proof db).2) =
        trade_by_id k (p2p_fiat_trades db)) ∧
  p2p_fiat_offers (markPaymentSent answer now tradeId proof db).2 = p2p_fiat_offers db ∧
  p2p_reputation (markPaymentSent answer now tradeId proof db).2 = p2p_reputation db ∧
  balances (markPaymentSent answer now tradeId proof db).2 = balances db ∧
  (answer = Written →
   trade_by_id tradeId (p2p_fiat_trades db) = [] →
   markPaymentSent answer now tradeId proof db = (Ok tt, db)).
Proof.
  destruct answer as [|message]; unfold markPaymentSent, await, update, resolve, throw; simpl.
  - split; [done|]. split; [done|]. split.
    { intros k Hk. by apply (filter_update_where_other Trade.id). }
    split; [done|]. split; [done|]. split; [done|].
    intros _ Hnone. destruct db as [offers trades reps ledger]. unfold with_trades. simpl in *.
    by rewrite (update_where_no_row Trade.id).
  - by repeat split.
Qed.

(** ** Validation *)

Lemma field_error_raises R value rules :
  field_error R value rules = None ↔
  ∃ p, pattern rules = Some p ∧ p ≠ "" ∧ value ≠ "" ∧ R p value = None.
Proof.
  unfold field_error, truthy_string.
  destruct (bool_decide (required rules = Some true) && _) eqn:Hreq.
  - split; [done|]. intros (p & _ & _ & Hv & _).
    apply andb_true_iff in Hreq as [_ Hreq].
    rewrite negb_involutive in Hreq. by apply bool_decide_eq_true in Hreq.
  - destruct (pattern rules) as [p|]; simpl; [|split; [done|by intros (? & ? & _)]].
    destruct (bool_decide (p = "")) eqn:Hp; simpl.
    { apply bool_decide_eq_true in Hp. split; [done|]. by intros (? & [= <-] & ? & _). }
    destruct (bool_decide (value = "")) eqn:Hv; simpl.
    { apply bool_decide_eq_true in Hv. split; [done|]. by intros (? & _ & _ & ? & _). }
    apply bool_decide_eq_false in Hp, Hv.
    destruct (R p value) as [ok|] eqn:HR; simpl.
    + split; [done|]. intros (? & [= <-] & _ & _ & ?). congruence.
    + split; [|done]. intros _. by exists p.
Qed.

(** X15. [validatePaymentDetails] reports errors only for fields that have
    rules, and reads the details of no other field: details that agree on
    the fields with rules give the same result. *)
Theorem validatePaymentDetails_reads_ruled_fields_only
    (RegExp_test : string → string → option bool)
    (paymentDetails : gmap string string)
    (validationRules : gmap string ValidationRule) (r : ValidationResult) :
  validatePaymentDetails RegExp_test paymentDetails validationRules = Some r →
  (∀ field, is_Some (errors r !! field) → is_Some (validationRules !! field)) ∧
  (∀ paymentDetails' : gmap string string,
     (∀ field, is_Some (validationRules !! field) →
               paymentDetails' !! field = paymentDetails !! field) →
     validatePaymentDetails RegExp_test paymentDetails' validationRules = Some r).
Proof.
  unfold validatePaymentDetails. intros Hr.
  pose proof (validate_loop RegExp_test paymentDetails validationRules) as Hloop.
  destruct (map_fold _ _ validationRules) as [errs|] eqn:Hfold; simplify_eq/=.
  split.
  - intros field [msg Hmsg]. specialize (Hloop field).
    destruct (validationRules !! field); [by eexists|congruence].
  - intros paymentDetails' Hagree.
    pose proof (validate_loop RegExp_test paymentDetails' validationRules) as Hloop'.
    rewrite (loop_result_unique RegExp_test paymentDetails' validationRules _
               (Some errs) Hloop'); [done|].
    intros k. specialize (Hloop k).
    destruct (validationRules !! k) as [rules|] eqn:Hk; [|done].
    unfold field_value in *. rewrite Hagree; [done|by eexists].
Qed.

(** X16. [validatePaymentDetails] answers [valid = true] exactly when every
    field that has rules passes them; the error it records for a field is
    the one its rules give on the field's value. *)
Theorem validatePaymentDetails_valid_iff_all_pass
    (RegExp_test : string → string → option bool)
    (paymentDetails : gmap string string)
    (validationRules : gmap string ValidationRule) (r : ValidationResult) :
  validatePaymentDetails RegExp_test paymentDetails validationRules = Some r →
  (∀ field rules, validationRules !! field = Some rules →
     field_error RegExp_test (field_value paymentDetails field) rules =
     Some (errors r !! field)) ∧
  (valid r = true ↔
   ∀ field rules, validationRules !! field = Some rules →
     field_error RegExp_test (field_value paymentDetails field) rules = Some None).
Proof.
  unfold validatePaymentDetails. intros Hr.
  pose proof (validate_loop RegExp_test paymentDetails validationRules) as Hloop.
  destruct (map_fold _ _ validationRules) as [errs|] eqn:Hfold; simplify_eq/=.
  split.
  - intros field rules Hf. specialize (Hloop field). by rewrite Hf in Hloop.
  - rewrite bool_decide_eq_true, map_size_empty_iff. split.
    + intros -> field rules Hf. specialize (Hloop field).
      by rewrite Hf, lookup_empty in Hloop.
    + intros Hall. apply map_eq. intros k. rewrite lookup_empty.
      specialize (Hloop k). destruct (validationRules !! k) as [rules|] eqn:Hk; [|done].
      rewrite (Hall k rules Hk) in Hloop. congruence.
Qed.

(** X17. Which message a field gets. A field marked [required] and left
    empty gets "This field is required" and nothing else is looked at. A
    value longer than a (positive) [maxLength] gets "Maximum n characters",
    which replaces what the pattern or the [minLength] rule has recorded. *)
Theorem validatePaymentDetails_message_precedence
    (RegExp_test : string → string → option bool)
    (paymentDetails : gmap string string)
    (validationRules : gmap string ValidationRule) (r : ValidationResult)
    (field : string) (rules : ValidationRule) :
  validatePaymentDetails RegExp_test paymentDetails validationRules = Some r →
  validationRules !! field = Some rules →
  (required rules = Some true → field_value paymentDetails field = "" →
   errors r !! field = Some "This field is required") ∧
  (∀ n, maxLength rules = Some n → 0 < n →
        n < string_length (field_value paymentDetails field) →
   errors r !! field = Some ("Maximum " +:+ pretty n +:+ " characters")).
Proof.
  intros Hr Hf.
  destruct (validatePaymentDetails_valid_iff_all_pass _ _ _ _ Hr) as [Hfield _].
  specialize (Hfield field rules Hf). unfold field_error in Hfield.
  split.
  - intros Hreq Hempty. rewrite Hreq, Hempty in Hfield. simpl in Hfield. congruence.
  - intros n Hmax Hn Hlong.
    assert (truthy_string (field_value paymentDetails field) = true) as Hv.
    { unfold truthy_string. rewrite bool_decide_false; [done|].
      intros Hempty. rewrite Hempty in Hlong. unfold string_length in Hlong.
      simpl in Hlong. lia. }
    rewrite Hv, andb_false_r, Hmax in Hfield.
    assert (truthy_number n && (n <? string_length (field_value paymentDetails field)) = true)
      as Htoo.
    { unfold truthy_number. apply andb_true_iff. split.
      - apply negb_true_iff, Z.eqb_neq. lia.
      - by apply Z.ltb_lt. }
    rewrite Htoo in Hfield.
    destruct (match pattern rules with Some _ => _ | None => _ end); simpl in Hfield;
      congruence.
Qed.

(** X18. [validatePaymentDetails] raises only through the constructor of a
    regular expression: it returns a result unless some field that has a
    value has, in its rules, a non-empty pattern the constructor rejects. *)
Theorem validatePaymentDetails_raises_on_bad_pattern_only
    (RegExp_test : string → string → option bool)
    (paymentDetails : gmap string string)
    (validationRules : gmap string ValidationRule) :
  validatePaymentDetails RegExp_test paymentDetails validationRules = None ↔
  ∃ field rules p,
    validationRules !! field = Some rules ∧ pattern rules = Some p ∧ p ≠ "" ∧
    field_value paymentDetails field ≠ "" ∧
    RegExp_test p (field_value paymentDetails field) = None.
Proof.
  unfold validatePaymentDetails.
  pose proof (validate_loop RegExp_test paymentDetails validationRules) as Hloop.
  destruct (map_fold _ _ validationRules) as [errs|] eqn:Hfold; simpl in *.
  - split; [done|]. intros (field & rules & p & Hf & Hp & Hne & Hv & HR).
    specialize (Hloop field). rewrite Hf in Hloop.
    assert (field_error RegExp_test (field_value paymentDetails field) rules = None)
      as Hnone by (apply field_error_raises; eauto).
    congruence.
  - split; [|done]. intros _. destruct Hloop as (k & rules & Hk & He).
    apply field_error_raises in He as (p & ? & ? & ? & ?). by exists k, rules, p.
Qed.

(* ================================================================== *)
(** * Properties of the identity library *)
(* ================================================================== *)

(** X19. The reputation score is between 0 and 100 and does not depend on
    the trades it is given: only the verification level and the number of
    badges count. *)
Theorem calculateReputationScore_bounded {T U : Type}
    (trades : list T) (trades' : list U)
    (verificationLevel : VerificationLevel) (badges badges' : list Badge.t) :
  0 ≤ calculateReputationScore trades verificationLevel badges ≤ 100 ∧
  (length badges = length badges' →
   calculateReputationScore trades verificationLevel badges =
   calculateReputationScore trades' verificationLevel badges').
Proof.
  unfold calculateReputationScore. split.
  - destruct verificationLevel; lia.
  - intros ->. done.
Qed.

(** X20. The score never goes down with a higher verification level or with
    more badges, and one more badge is worth 5 points up to the cap of
    100. *)
Theorem calculateReputationScore_monotone {T : Type} (trades : list T)
    (level level' : VerificationLevel) (badges badges' : list Badge.t) (badge : Badge.t) :
  ((level_rank level ≤ level_rank level')%nat →
   (length badges ≤ length badges')%nat →
   calculateReputationScore trades level badges ≤
   calculateReputationScore trades level' badges') ∧
  calculateReputationScore trades level (badge :: badges) =
    Z.min (calculateReputationScore trades level badges + 5) 100.
Proof.
  unfold calculateReputationScore. split.
  - intros Hl Hb. destruct level, level'; simpl in Hl; lia.
  - simpl length. destruct level; lia.
Qed.

Lemma string_length_append (s t : string) :
  String.length (String.append s t) = (String.length s + String.length t)%nat.
Proof. induction s as [|c s IH]; simpl; [done|]. by rewrite IH. Qed.

Lemma list_ascii_of_string_append (s t : string) :
  String.list_ascii_of_string (String.append s t) =
  String.list_ascii_of_string s ++ String.list_ascii_of_string t.
Proof. induction s as [|c s IH]; simpl; [done|]. by rewrite IH. Qed.

Lemma unhex_byte (b : Byte.byte) (rest : string) :
  unhex (padStart2 (toString16 b) +:+ rest) = bs ← unhex rest; Some (b :: bs).
Proof. destruct b; reflexivity. Qed.

Lemma hex_byte_shape (b : Byte.byte) :
  String.length (padStart2 (toString16 b)) = 2%nat ∧
  Forall (λ c, c ∈ String.list_ascii_of_string "0123456789abcdef")
    (String.list_ascii_of_string (padStart2 (toString16 b))).
Proof.
  split; [by destruct b|].
  destruct b; vm_compute; repeat constructor.
Qed.

(** X21. The proof [generateZKProof] returns is the digest written in
    lowercase hexadecimal, two digits a byte: it is twice as long as the
    digest, holds hexadecimal digits only, and the digest can be read back
    from it, so that two data have the same proof only if they have the same
    digest. *)
Theorem generateZKProof_hex {KYCData : Type} (digest : KYCData → list Byte.byte)
    (data data' : KYCData) :
  String.length (generateZKProof digest data) = (2 * length (digest data))%nat ∧
  Forall (λ c, c ∈ String.list_ascii_of_string "0123456789abcdef")
    (String.list_ascii_of_string (generateZKProof digest data)) ∧
  unhex (generateZKProof digest data) = Some (digest data) ∧
  (generateZKProof digest data = generateZKProof digest data' →
   digest data = digest data').
Proof.
  unfold generateZKProof.
  assert (∀ bs : list Byte.byte,
    String.length (foldr String.append "" ((λ b, padStart2 (toString16 b)) <$> bs)) =
      (2 * length bs)%nat ∧
    Forall (λ c, c ∈ String.list_ascii_of_string "0123456789abcdef")
      (String.list_ascii_of_string
         (foldr String.append "" ((λ b, padStart2 (toString16 b)) <$> bs))) ∧
    unhex (foldr String.append "" ((λ b, padStart2 (toString16 b)) <$> bs)) = Some bs)
    as Hall.
  { induction bs as [|b bs (IHlen & IHhex & IHun)]; [by repeat split|].
    rewrite fmap_cons. simpl foldr.
    destruct (hex_byte_shape b) as [Hlen Hhex].
    split; [|split].
    - rewrite string_length_append, Hlen, IHlen. simpl. lia.
    - rewrite list_ascii_of_string_append. by apply Forall_app.
    - change (String.append ?a ?b) with (a +:+ b). by rewrite unhex_byte, IHun. }
  destruct (Hall (digest data)) as (Hlen & Hhex & Hun).
  destruct (Hall (digest data')) as (_ & _ & Hun').
  repeat split; try done.
  intros Heq. rewrite Heq in Hun. congruence.
Qed.

(* ================================================================== *)
(** * Properties of the screens *)
(* ================================================================== *)

(** ** The trade modal *)

(** X22. [handleInitiateTrade] either refuses, and then nothing is sent and
    the database is unchanged, or it calls [acceptFiatOffer] for a signed-in
    user who is not the seller of the offer, with an amount that is
    positive, at most the remaining amount of the offer displayed and
    within the order limits of that offer: it never sends the amount 0 that
    [acceptFiatOffer] would read as "all that remains". *)
Theorem handleInitiateTrade_sends_checked_amount
    (accept_p2p_offer : string → string → string → Z → Procedure)
    (session : option string) (user : option User.t) (offer : P2PFiatOffer)
    (amount : option Z) (db : Database) :
  (∃ message,
     handleInitiateTrade accept_p2p_offer session user offer amount db =
     (Refused message, db)) ∨
  (∃ u c,
     user = Some u ∧ amount = Some c ∧
     User.id u ≠ Offer.seller_id offer ∧
     0 < c ≤ Offer.remaining_amount offer ∧
     (∀ m, Offer.min_order_amount offer = Some m → m ≤ c) ∧
     (∀ m, Offer.max_order_amount offer = Some m → m ≠ 0 → c ≤ m) ∧
     handleInitiateTrade accept_p2p_offer session user offer amount db =
     outcome_of
       (acceptFiatOffer accept_p2p_offer session (Offer.id offer)
          (string_or (User.wallet_address u) "") (Some c) db)).
Proof.
  unfold handleInitiateTrade. destruct user as [u|]; [|left; by eexists].
  destruct (bool_decide (Offer.seller_id offer = User.id u)) eqn:Hown;
    [left; by eexists|]. apply bool_decide_eq_false in Hown.
  destruct ((0 <? number_or amount 0) && _) eqn:Hvalid; simpl; [|left; by eexists].
  apply andb_true_iff in Hvalid as [Hpos Hrem].
  apply Z.ltb_lt in Hpos. apply Z.leb_le in Hrem.
  assert (amount = Some (number_or amount 0)) as Hamount.
  { unfold number_or in *. destruct amount as [n|]; [|lia].
    destruct (truthy_number n); [done|lia]. }
  destruct (match Offer.min_order_amount offer with Some _ => _ | None => _ end) eqn:Hmin;
    simpl; [|left; by eexists].
  destruct (match Offer.max_order_amount offer with Some _ => _ | None => _ end) eqn:Hmax;
    simpl; [|left; by eexists].
  right. exists u, (number_or amount 0).
  split; [done|]. split; [done|]. split; [congruence|]. split; [lia|].
  split; [|split].
  - intros m Hm. rewrite Hm in Hmin. apply orb_true_iff in Hmin as [Hz|Hle].
    + unfold truthy_number in Hz. rewrite negb_involutive in Hz.
      apply Z.eqb_eq in Hz. lia.
    + by apply Z.leb_le in Hle.
  - intros m Hm Hne. rewrite Hm in Hmax. apply orb_true_iff in Hmax as [Hz|Hle].
    + unfold truthy_number in Hz. rewrite negb_involutive in Hz.
      apply Z.eqb_eq in Hz. done.
    + by apply Z.leb_le in Hle.
  - unfold attempt, outcome_of. done.
Qed.

(** X23. The offer the modal displays is the row the database holds, the
    buyer is signed in and meets the thresholds of the offer. When the modal
    does not refuse, the accept procedure is called for the session user with
    exactly the amount typed. *)
Theorem handleInitiateTrade_reaches_procedure
    (accept_p2p_offer : string → string → string → Z → Procedure)
    (session : string) (user : User.t) (offer : P2PFiatOffer) (amount : Z) (db : Database) :
  single (offer_by_id (Offer.id offer) (p2p_fiat_offers db)) = Some offer →
  meets_thresholds offer (getUserReputation session db) →
  (∀ message,
     handleInitiateTrade accept_p2p_offer (Some session) (Some user) offer (Some amount) db ≠
     (Refused message, db)) →
  handleInitiateTrade accept_p2p_offer (Some session) (Some user) offer (Some amount) db =
  outcome_of
    (settle_accept
       (accept_p2p_offer (Offer.id offer) session
          (string_or (User.wallet_address user) "") amount) db).
Proof.
  intros Hrow Hmeets Hnot.
  destruct (handleInitiateTrade_sends_checked_amount accept_p2p_offer (Some session)
              (Some user) offer (Some amount) db)
    as [[message Href]|(u & c & [= <-] & [= <-] & _ & Hc & _ & _ & Hcall)].
  { by destruct (Hnot message). }
  rewrite Hcall. f_equal.
  destruct (acceptFiatOffer_reaches_procedure_iff accept_p2p_offer session
              (Offer.id offer) (string_or (User.wallet_address user) "") (Some amount)
              db offer Hrow) as [Hreach _].
  rewrite (Hreach Hmeets). do 3 f_equal.
  unfold number_or, truthy_number. destruct (amount =? 0) eqn:E; [|done].
  apply Z.eqb_eq in E. lia.
Qed.

(** ** The withdraw modal *)

(** X24. [handleWithdraw] either refuses, or fails in [requestWithdraw]
    before anything is sent (nobody signed in, or an address shorter than 40
    characters), or reaches the withdraw procedure; and it reaches it only
    with a positive amount that is at most the available balance the modal
    has fetched, if it has fetched one. The database is unchanged in the
    first two cases. *)
Theorem handleWithdraw_sends_checked_amount
    (request_withdraw : string → CryptoToken → Z → string → Database → WithdrawResult * Database)
    (session : option string) (token : CryptoToken) (amount : option Z)
    (walletAddress : string) (balance : option InternalBalance.t) (db : Database) :
  (∃ message,
     handleWithdraw request_withdraw session token amount walletAddress balance db =
     (Refused message, db)) ∨
  (∃ message,
     (session = None ∨ (String.length walletAddress < 40)%nat) ∧
     handleWithdraw request_withdraw session token amount walletAddress balance db =
     (Failed (JsError message), db)) ∨
  (∃ s a,
     session = Some s ∧ amount = Some a ∧ 0 < a ∧
     (40 ≤ String.length walletAddress)%nat ∧
     (∀ b, balance = Some b → a ≤ InternalBalance.available_balance b) ∧
     handleWithdraw request_withdraw session token amount walletAddress balance db =
     outcome_of (settle_withdraw (request_withdraw s token a walletAddress db))).
Proof.
  unfold handleWithdraw.
  destruct (negb (truthy_string walletAddress)); [left; by eexists|].
  destruct amount as [a|]; [|left; by eexists].
  destruct (a <=? 0) eqn:Ea; [left; by eexists|]. apply Z.leb_gt in Ea.
  destruct (match balance with Some _ => _ | None => _ end) eqn:Hb; [left; by eexists|].
  assert (∀ b, balance = Some b → a ≤ InternalBalance.available_balance b) as Hbal.
  { intros b ->. by apply Z.ltb_ge in Hb. }
  right. unfold attempt.
  destruct (requestWithdraw_validates_first request_withdraw session token a walletAddress db)
    as (Hbad & _ & Hgood).
  destruct session as [s|].
  - destruct (decide (String.length walletAddress < 40)%nat) as [Hshort|Hlong].
    + left. destruct Hbad as [message ->]; [by right; right|].
      exists message. split; [by right|done].
    + right. exists s, a. repeat split; try done; try lia.
      rewrite (Hgood s eq_refl Ea) by lia. done.
  - left. destruct Hbad as [message ->]; [by left|].
    exists message. split; [by left|done].
Qed.

(** ** The trade screen *)


(** ** The dashboard *)

Lemma foldl_total {A} (g : A → Z) (rows : list A) (start : Z) :
  foldl (λ sum t, sum + g t) start rows = start + total g rows.
Proof.
  revert start. induction rows as [|r rows IH]; intros start; simpl; [lia|].
  rewrite IH. lia.
Qed.

Lemma total_filter {A} (P : A → Prop) `{∀ x, Decision (P x)} (g : A → Z) (rows : list A) :
  total g (filter P rows) = total (λ r, indicator P r * g r) rows.
Proof.
  unfold indicator. induction rows as [|r rows IH]; [done|].
  destruct (decide (P r)) as [Hr|Hr].
  - rewrite filter_cons_True by done. simpl. rewrite decide_True by done. rewrite IH. lia.
  - rewrite filter_cons_False by done. simpl. rewrite decide_False by done. rewrite IH. lia.
Qed.

Lemma length_total {A} (rows : list A) : Z.of_nat (length rows) = total (λ _, 1) rows.
Proof. induction rows as [|r rows IH]; simpl; [done|]. lia. Qed.

Lemma total_le {A} (f g : A → Z) (rows : list A) :
  (∀ r, f r ≤ g r) → total f rows ≤ total g rows.
Proof.
  intros Hle. induction rows as [|r rows IH]; simpl; [done|]. specialize (Hle r). lia.
Qed.

Lemma total_plus {A} (f g : A → Z) (rows : list A) :
  total (λ r, f r + g r) rows = total f rows + total g rows.
Proof. induction rows as [|r rows IH]; simpl; [done|]. lia. Qed.

Lemma total_ext {A} (f g : A → Z) (rows : list A) :
  (∀ r, f r = g r) → total f rows = total g rows.
Proof. intros Heq. induction rows as [|r rows IH]; simpl; [done|]. by rewrite Heq, IH. Qed.



Lemma fetchStats_totals userId db :
  activeTrades (fetchStats userId db) =
    total (indicator (is_active_trade userId)) (p2p_fiat_trades db) ∧
  completedTrades (fetchStats userId db) =
    total (indicator (is_completed_trade userId)) (p2p_fiat_trades db) ∧
  totalVolume (fetchStats userId db) =
    total (λ r, indicator (is_completed_trade userId) r * Trade.fiat_amount r)
      (p2p_fiat_trades db).
Proof.
  unfold fetchStats. simpl. rewrite foldl_total, !length_total, !total_filter.
  repeat split; apply total_ext; intros r; lia.
Qed.

(** X26. The figures of the dashboard count the user's own trades: the
    active and the completed trades together are at most the trades
    [getUserTrades] lists for the user, no trade is counted in both, and the
    volume is the sum of the fiat amounts of the completed ones (none when
    no trade is completed). *)
Theorem fetchStats_counts_own_trades (userId : string) (db : Database) :
  0 ≤ activeTrades (fetchStats userId db) ∧
  0 ≤ completedTrades (fetchStats userId db) ∧
  activeTrades (fetchStats userId db) + completedTrades (fetchStats userId db) ≤
    Z.of_nat (length (getUserTrades userId db)) ∧
  totalVolume (fetchStats userId db) =
    total Trade.fiat_amount (filter (is_completed_trade userId) (getUserTrades userId db)) ∧
  (completedTrades (fetchStats userId db) = 0 → totalVolume (fetchStats userId db) = 0).
Proof.
  split; [unfold fetchStats; simpl; lia|]. split; [unfold fetchStats; simpl; lia|].
  split; [|split].
  - destruct (fetchStats_totals userId db) as (-> & -> & _).
    unfold getUserTrades. rewrite merge_sort_Permutation, length_total.
    rewrite (total_filter (involves userId)), <- total_plus.
    apply total_le. intros r. unfold indicator.
    destruct (decide (is_active_trade userId r)) as [[Hi Hs]|Ha],
             (decide (is_completed_trade userId r)) as [[Hi' Hc]|Hc'],
             (decide (involves userId r)) as [Hv|Hv]; try lia; try tauto.
    rewrite Hc in Hs.
    repeat (apply elem_of_cons in Hs as [Hs|Hs]; [discriminate|]).
    by apply elem_of_nil in Hs.
  - unfold fetchStats, getUserTrades. simpl. rewrite foldl_total, Z.add_0_l.
    assert (∀ l l' : list P2PFiatTrade, l ≡ₚ l' →
              total Trade.fiat_amount l = total Trade.fiat_amount l') as Hperm.
    { induction 1; simpl; lia. }
    symmetry. etrans.
    { apply Hperm. apply filter_Permutation, merge_sort_Permutation. }
    f_equal.
    induction (p2p_fiat_trades db) as [|r rows IH]; [done|].
    destruct (decide (is_completed_trade userId r)) as [Hc|Hc].
    + rewrite (filter_cons_True (involves userId)) by apply Hc.
      rewrite !filter_cons_True by done. by rewrite IH.
    + rewrite (filter_cons_False (is_completed_trade userId)) by done.
      destruct (decide (involves userId r)).
      * rewrite (filter_cons_True (involves userId)) by done.
        by rewrite filter_cons_False.
      * by rewrite (filter_cons_False (involves userId)).
  - unfold fetchStats. simpl. intros Hzero.
    destruct (filter (is_completed_trade userId) (p2p_fiat_trades db)); [done|].
    simpl in Hzero. lia.
Qed.




(* ================================================================== *)
(** * The further properties on the scenarios *)
(* ================================================================== *)

Lemma release_keeps_trades from to token amount kind reference d :
  p2p_fiat_trades (Server.release_escrow_internal from to token amount kind reference d).2 =
  p2p_fiat_trades d.
Proof.
  unfold Server.release_escrow_internal. by destruct (Ledger.releaseTransfer _ _ _ _ _).
Qed.

Lemma getPlatformWalletAddress_never_empty_witness :
  getPlatformWalletAddress Cases.config = "5Platform".
Proof.
  apply (proj2 (proj2 (getPlatformWalletAddress_never_empty Cases.config))
           (Config.mk "platform_escrow_wallet" (Some "5Platform")) "5Platform");
    [reflexivity|reflexivity|discriminate].
Defined.

Lemma getInternalBalance_finds_token_witness :
  InternalBalance.mk PEZ 5 0 5 5 0 ∈
    getInternalBalances Cases.two_balances (Some "maker") Scenario.pending ∧
  InternalBalance.token (InternalBalance.mk PEZ 5 0 5 5 0) = PEZ.
Proof.
  apply (proj1 (getInternalBalance_finds_token Cases.two_balances (Some "maker") PEZ
                  Scenario.pending)).
  reflexivity.
Defined.

Lemma requestWithdraw_validates_first_witness :
  (∃ message,
     requestWithdraw Cases.accepting (Some "maker") HEZ 5 "5Short" Scenario.pending =
     (Throw (JsError message), Scenario.pending)) ∧
  requestWithdraw Cases.accepting (Some "maker") HEZ 5 DEFAULT_ADDRESS Scenario.pending =
  settle_withdraw (Cases.accepting "maker" HEZ 5 DEFAULT_ADDRESS Scenario.pending).
Proof.
  split.
  - apply (proj1 (requestWithdraw_validates_first Cases.accepting (Some "maker") HEZ 5
                    "5Short" Scenario.pending)).
    right. right. simpl. lia.
  - apply (proj2 (proj2 (requestWithdraw_validates_first Cases.accepting (Some "maker") HEZ 5
                           DEFAULT_ADDRESS Scenario.pending)) "maker");
      [reflexivity|lia|simpl; lia].
Defined.

Lemma acceptFiatOffer_reaches_procedure_iff_witness :
  acceptFiatOffer (Server.accept_p2p_offer 0) (Some "alice") "offer-10" "5alice" (Some 6)
    Scenario.contested =
  settle_accept (Server.accept_p2p_offer 0 "offer-10" "alice" "5alice" 6) Scenario.contested.
Proof.
  apply (proj1 (acceptFiatOffer_reaches_procedure_iff (Server.accept_p2p_offer 0) "alice"
                  "offer-10" "5alice" (Some 6) Scenario.contested Scenario.last_ten
                  eq_refl)).
  right. exists (Scenario.seasoned "alice"). split; [reflexivity|]. simpl. lia.
Defined.

Lemma acceptFiatOffer_needs_user_and_offer_witness :
  acceptFiatOffer (Server.accept_p2p_offer 0) (Some "taker") "offer-9" "5Taker" None
    Scenario.pending =
  (Throw (JsError "Offer not found"), Scenario.pending).
Proof.
  apply (proj2 (acceptFiatOffer_needs_user_and_offer (Server.accept_p2p_offer 0)
                  (Some "taker") "offer-9" "5Taker" None Scenario.pending));
    [by eexists|]. vm_compute. discriminate.
Defined.

Lemma confirmPaymentReceived_only_seller_of_paid_trade_witness :
  confirmPaymentReceived Server.release_escrow_internal 2000 (Some "taker") "trade-1"
    Scenario.paid =
  (Throw (JsError "Only seller can confirm"), Scenario.paid).
Proof.
  apply (proj2 (confirmPaymentReceived_only_seller_of_paid_trade
                  Server.release_escrow_internal 2000 (Some "taker") "trade-1" Scenario.paid)
           (Trade.mark_paid 1000 None 3601000 Scenario.trade_1) "taker");
    [reflexivity|reflexivity|discriminate].
Defined.

Lemma confirmPaymentReceived_failure_keeps_trades_witness :
  confirmPaymentReceived Server.release_escrow_internal 2000 (Some "maker") "trade-1"
    Cases.unfunded = (Throw (JsError "LockMismatch"), Cases.unfunded) ∧
  p2p_fiat_trades Cases.unfunded = p2p_fiat_trades Cases.unfunded.
Proof.
  assert (confirmPaymentReceived Server.release_escrow_internal 2000 (Some "maker") "trade-1"
            Cases.unfunded = (Throw (JsError "LockMismatch"), Cases.unfunded)) as Hfail
    by (vm_compute; reflexivity).
  split; [exact Hfail|].
  exact (confirmPaymentReceived_failure_keeps_trades Server.release_escrow_internal 2000
           (Some "maker") "trade-1" Cases.unfunded Cases.unfunded _
           release_keeps_trades Hfail).
Defined.


Lemma cancelTrade_touches_trade_and_offer_only_witness :
  p2p_reputation Cases.cancelled = p2p_reputation Scenario.pending ∧
  balances Cases.cancelled = balances Scenario.pending.
Proof.
  destruct (cancelTrade_touches_trade_and_offer_only (Some "taker") "trade-1" None
              Scenario.pending Cases.cancelled)
    as (trade & _ & _ & _ & _ & _ & Hrep & Hbal).
  { vm_compute. reflexivity. }
  split; [exact Hrep|exact Hbal].
Defined.

Lemma cancelTrade_after_markPaymentSent_witness :
  cancelTrade (Some "taker") "trade-1" None Scenario.paid =
  (Throw (JsError "Cannot cancel at this stage"), Scenario.paid).
Proof.
  apply (cancelTrade_after_markPaymentSent Written 1000 "trade-1" None Scenario.pending
           Scenario.trade_1 "taker" None); reflexivity.
Defined.

Lemma validatePaymentDetails_reads_ruled_fields_only_witness :
  validatePaymentDetails Scenario.prefix_test Cases.details_with_note Scenario.rules =
  Some Scenario.verdict.
Proof.
  apply (proj2 (validatePaymentDetails_reads_ruled_fields_only Scenario.prefix_test
                  Scenario.details Scenario.rules Scenario.verdict
                  ltac:(vm_compute; reflexivity))).
  intros field [rules Hrules]. unfold Cases.details_with_note.
  apply lookup_insert_ne. intros <-. vm_compute in Hrules. discriminate.
Defined.

Lemma validatePaymentDetails_valid_iff_all_pass_witness :
  field_error Scenario.prefix_test (field_value Scenario.details "iban") Scenario.iban_rule =
  Some (errors Scenario.verdict !! "iban").
Proof.
  apply (proj1 (validatePaymentDetails_valid_iff_all_pass Scenario.prefix_test
                  Scenario.details Scenario.rules Scenario.verdict
                  ltac:(vm_compute; reflexivity))).
  vm_compute. reflexivity.
Defined.

Lemma validatePaymentDetails_message_precedence_witness :
  errors Cases.blank_verdict !! "name" = Some "This field is required".
Proof.
  assert (validatePaymentDetails Scenario.prefix_test (∅ : gmap string string)
            Scenario.rules = Some Cases.blank_verdict) as Hrun by (vm_compute; reflexivity).
  assert (Scenario.rules !! "name" =
          Some {| pattern := None; minLength := None; maxLength := Some 40;
                  required := Some true |}) as Hrule by (vm_compute; reflexivity).
  apply (proj1 (validatePaymentDetails_message_precedence Scenario.prefix_test ∅
                  Scenario.rules Cases.blank_verdict "name" _ Hrun Hrule));
    reflexivity.
Defined.

Lemma handleInitiateTrade_reaches_procedure_witness :
  handleInitiateTrade (Server.accept_p2p_offer 0) (Some "alice") (Some Cases.alice)
    Scenario.last_ten (Some 6) Scenario.contested =
  outcome_of
    (settle_accept (Server.accept_p2p_offer 0 "offer-10" "alice" "" 6) Scenario.contested).
Proof.
  apply (handleInitiateTrade_reaches_procedure (Server.accept_p2p_offer 0) "alice"
           Cases.alice Scenario.last_ten 6 Scenario.contested).
  - reflexivity.
  - right. exists (Scenario.seasoned "alice"). split; [reflexivity|]. simpl. lia.
  - intros message H. vm_compute in H. discriminate.
Defined.



